(** * The flexible tool adapter of the MNotify agent ([tool_adapter.py])

    A shallow embedding of [make_flex_wrapper] and of the helpers it is
    built from, followed by the properties of the wrapper pipeline:
    envelope unwrap, key normalisation, alias resolution, coercion and
    binding, and validation.

    Conventions of the embedding.
    - A Python [str] is a [string]: a sequence of code points below 256.
      White space, lower case, printable characters and digits are those
      of Python on these code points.
    - A Python [dict] is an association list in insertion order, with
      string keys that occur once.
    - An integer is a [Z].  CPython refuses to read a literal of more
      than 4300 digits and to write the text of an integer of more than
      4300 digits ([sys.int_max_str_digits]).  [Literal.int_of_str]
      raises beyond the limit; [renders] tells the values that have a
      text, and [py_str] is their text: what is stated about the text
      of a value of any type is stated for a value that renders.
    - The float type of the runtime is an interface ([PyFloat]); the
      adapter only converts to and from floats, it never computes with
      them.
    - Equality is equality of values; CPython also lets a container
      equal itself through object identity, which differs for a NaN
      inside a list only.
    - A computation that may raise returns a [result].
    - The wrapped domain function is a parameter [func] from bindings to
      results; the wrapper returns its result together with the list
      of bindings it called [func] with. *)

From Stdlib Require Import Bool Arith ZArith List String Ascii Lia.
From Stdlib Require Import DecimalString Sorting.Sorted.
From Stdlib Require DecimalPos.
Import ListNotations.

Local Open Scope string_scope.
Local Open Scope bool_scope.
Local Open Scope nat_scope.

(* ================================================================== *)
(** * Python strings *)
(* ================================================================== *)

Module PyStr.

Definition code (c : ascii) : nat := nat_of_ascii c.

(** [str.isspace] on one character: tab, line feed, vertical tab,
    form feed, carriage return, the four separators 28-31, space,
    next-line (133) and no-break space (160). *)
Definition is_space (c : ascii) : bool :=
  let n := code c in
  ((9 <=? n) && (n <=? 13)) || ((28 <=? n) && (n <=? 32))
  || (n =? 133) || (n =? 160).

(** The two characters of the quote strip of [_to_str_list]: the
    double quote (34) and the single quote (39). *)
Definition is_quote (c : ascii) : bool :=
  (code c =? 34) || (code c =? 39).

Definition is_digit (c : ascii) : bool :=
  (48 <=? code c) && (code c <=? 57).

Fixpoint drop_while (p : ascii -> bool) (s : string) : string :=
  match s with
  | EmptyString => EmptyString
  | String c s' => if p c then drop_while p s' else s
  end.

Definition rev (s : string) : string :=
  string_of_list_ascii (List.rev (list_ascii_of_string s)).

(** [s.strip()] when [p] is [is_space]; [s.strip(chars)] when [p] is
    the membership in [chars]. *)
Definition strip_by (p : ascii -> bool) (s : string) : string :=
  rev (drop_while p (rev (drop_while p s))).

Definition strip : string -> string := strip_by is_space.
Definition strip_quotes : string -> string := strip_by is_quote.

(** [s.split(sep)] for a one-character separator: the pieces between
    the separators, empty pieces included; never the empty list. *)
Fixpoint split_on (sep : ascii) (s : string) : list string :=
  match s with
  | EmptyString => [EmptyString]
  | String c s' =>
      if Ascii.eqb c sep then EmptyString :: split_on sep s'
      else match split_on sep s' with
           | [] => [String c EmptyString]
           | p :: ps => String c p :: ps
           end
  end.

(** [s.split()]: the maximal runs of characters that are not white
    space.  [cur] is the run being read, reversed. *)
Fixpoint split_ws_aux (cur : list ascii) (s : string) : list string :=
  let flush rest :=
    match cur with
    | [] => rest
    | _ => string_of_list_ascii (List.rev cur) :: rest
    end in
  match s with
  | EmptyString => flush []
  | String c s' =>
      if is_space c then flush (split_ws_aux [] s')
      else split_ws_aux (c :: cur) s'
  end.

Definition split_ws (s : string) : list string := split_ws_aux [] s.

(** [sep.join(l)]. *)
Definition join (sep : string) (l : list string) : string :=
  String.concat sep l.

Definition startswith_char (c : ascii) (s : string) : bool :=
  match s with
  | String d _ => Ascii.eqb d c
  | EmptyString => false
  end.

Definition endswith_char (c : ascii) (s : string) : bool :=
  startswith_char c (rev s).

(** [s[1:-1]]. *)
Definition slice_1_m1 (s : string) : string :=
  match s with
  | EmptyString => EmptyString
  | String _ s' => string_of_list_ascii (removelast (list_ascii_of_string s'))
  end.

(** [str.lower] on one character: the ASCII capitals and the Latin-1
    capitals 192-222 other than the multiplication sign 215. *)
Definition lower_char (c : ascii) : ascii :=
  let n := code c in
  if ((65 <=? n) && (n <=? 90))
     || ((192 <=? n) && (n <=? 222) && negb (n =? 215))
  then ascii_of_nat (n + 32) else c.

Fixpoint lower (s : string) : string :=
  match s with
  | EmptyString => EmptyString
  | String c s' => String (lower_char c) (lower s')
  end.

(** [str(n)] for an integer. *)
Definition of_Z (z : Z) : string := NilZero.string_of_int (Z.to_int z).

(** [sub in s]. *)
Fixpoint contains (sub s : string) : bool :=
  String.prefix sub s
  || match s with
     | EmptyString => false
     | String _ s' => contains sub s'
     end.

(** [sorted(set(l))]: duplicates removed, then insertion sort by code
    point order. *)
Fixpoint insert_sorted (x : string) (l : list string) : list string :=
  match l with
  | [] => [x]
  | y :: l' => if String.leb x y then x :: l else y :: insert_sorted x l'
  end.

Definition sort (l : list string) : list string :=
  fold_right insert_sorted [] l.

Definition sorted_set (l : list string) : list string :=
  sort (nodup string_dec l).

End PyStr.

(* ================================================================== *)
(** * Results, exceptions and the float interface *)
(* ================================================================== *)

(** The exceptions the adapter can let through.  [DomainFault] stands
    for whatever the wrapped function raises. *)
Inductive exn : Type :=
| ValueError
| OverflowError
| DomainFault (tag : string).

Inductive result (A : Type) : Type :=
| Ok (a : A)
| Exc (e : exn).

Arguments Ok {A} a.
Arguments Exc {A} e.

Definition bind {A B : Type} (r : result A) (k : A -> result B) : result B :=
  match r with
  | Ok a => k a
  | Exc e => Exc e
  end.

Declare Scope result_scope.
Delimit Scope result_scope with result.
Notation "x <- r ;; k" := (bind r (fun x => k))
  (at level 61, r at next level, right associativity) : result_scope.

(** ** Numeric literals accepted by [int()] and [float()]

    Both builtins accept an underscore between two digits and nowhere
    else.  The strings below carry no surrounding white space: the
    adapter strips before it converts. *)
Module Literal.

Import PyStr.

Definition is_underscore (c : ascii) : bool := code c =? 95.
Definition is_sign (c : ascii) : bool := (code c =? 43) || (code c =? 45).
Definition is_exp_mark (c : ascii) : bool := (code c =? 101) || (code c =? 69).
Definition is_dot (c : ascii) : bool := code c =? 46.

(** Every underscore stands between two digits; [prev] tells whether
    the previous character was a digit. *)
Fixpoint underscores_ok (prev : bool) (s : string) : bool :=
  match s with
  | EmptyString => true
  | String c s' =>
      if is_underscore c
      then prev && match s' with
                   | String d _ => is_digit d
                   | EmptyString => false
                   end && underscores_ok false s'
      else underscores_ok (is_digit c) s'
  end.

Fixpoint remove_underscores (s : string) : string :=
  match s with
  | EmptyString => EmptyString
  | String c s' =>
      if is_underscore c then remove_underscores s'
      else String c (remove_underscores s')
  end.

Definition drop_sign (s : string) : string :=
  match s with
  | String c s' => if is_sign c then s' else s
  | EmptyString => s
  end.

Definition negative (s : string) : bool :=
  match s with
  | String c _ => code c =? 45
  | EmptyString => false
  end.

Fixpoint all_digits (s : string) : bool :=
  match s with
  | EmptyString => true
  | String c s' => is_digit c && all_digits s'
  end.

Fixpoint digits_value (acc : Z) (s : string) : Z :=
  match s with
  | EmptyString => acc
  | String c s' => digits_value (10 * acc + Z.of_nat (code c - 48)) s'
  end.

(** CPython's default limit on the number of digits of an integer
    literal and of the decimal text of an integer
    ([sys.int_max_str_digits]). *)
Definition int_max_str_digits : nat := 4300.

(** [int(s)] in base ten: an optional sign and a non-empty run of
    digits.  [ValueError] for anything else, and for a literal of more
    digits than the limit allows; the sign and the underscores do not
    count. *)
Definition int_of_str (s : string) : result Z :=
  let body := remove_underscores (drop_sign s) in
  if underscores_ok false s && all_digits body
     && negb (String.eqb body "")
     && (String.length body <=? int_max_str_digits)
  then Ok (if negative s then - digits_value 0 body else digits_value 0 body)%Z
  else Exc ValueError.

(** A run of digits, then the rest. *)
Fixpoint skip_digits (s : string) : string :=
  match s with
  | String c s' => if is_digit c then skip_digits s' else s
  | EmptyString => s
  end.

Definition has_leading_digit (s : string) : bool :=
  match s with
  | String c _ => is_digit c
  | EmptyString => false
  end.

(** The exponent part: nothing, or [e] or [E], an optional sign and a
    non-empty run of digits up to the end. *)
Definition exponent_ok (s : string) : bool :=
  match s with
  | EmptyString => true
  | String c s' =>
      is_exp_mark c
      && has_leading_digit (drop_sign s')
      && String.eqb (skip_digits (drop_sign s')) ""
  end.

(** Digits with an optional fraction, or a fraction alone, then the
    exponent part. *)
Definition decimal_ok (s : string) : bool :=
  let after_int := skip_digits s in
  match after_int with
  | String c frac =>
      if is_dot c
      then (has_leading_digit s || has_leading_digit frac)
           && exponent_ok (skip_digits frac)
      else has_leading_digit s && exponent_ok after_int
  | EmptyString => has_leading_digit s
  end.

Definition special_ok (s : string) : bool :=
  let l := lower s in
  String.eqb l "inf" || String.eqb l "infinity" || String.eqb l "nan".

(** The strings [float(s)] accepts. *)
Definition is_float_literal (s : string) : bool :=
  underscores_ok false s
  && (let body := remove_underscores (drop_sign s) in
      special_ok body || decimal_ok body).

End Literal.

(** ** The float type of the runtime

    The adapter prints floats ([str]), tests them ([bool]), truncates
    them ([int]), builds them from integers and from strings ([float])
    and compares them ([==]).  What [float] does on a string that is
    not a float literal is part of the interface: it raises
    [ValueError]. *)
Class PyFloat : Type := {
  float : Type;
  float_str : float -> string;
  float_nonzero : float -> bool;
  float_trunc : float -> result Z;
  float_of_int : Z -> result float;
  float_of_str : string -> result float;
  float_eq : float -> float -> bool;
  float_eq_int : float -> Z -> bool;
  float_of_str_malformed :
    forall s, Literal.is_float_literal s = false -> float_of_str s = Exc ValueError
}.

(* ================================================================== *)
(** * Python values *)
(* ================================================================== *)

Section Values.

Context {F : PyFloat}.

(** The values a tool call carries: [None], booleans, integers,
    floats, strings, lists and mappings with string keys. *)
#[warnings="-register-all"] Inductive value : Type :=
| VNone
| VBool (b : bool)
| VInt (z : Z)
| VFloat (f : float)
| VStr (s : string)
| VList (l : list value)
| VDict (d : list (string * value)).

Definition dict : Type := list (string * value).

(** ** Dictionaries in insertion order *)

Fixpoint dict_find (k : string) (d : dict) : option value :=
  match d with
  | [] => None
  | (k', v) :: d' => if String.eqb k k' then Some v else dict_find k d'
  end.

(** [k in d]. *)
Definition dict_mem (k : string) (d : dict) : bool :=
  match dict_find k d with
  | Some _ => true
  | None => false
  end.

(** [d.get(k)]: [None] when the key is absent. *)
Definition dict_get (k : string) (d : dict) : value :=
  match dict_find k d with
  | Some v => v
  | None => VNone
  end.

(** [d[k] = v]: an existing key keeps its place, a new one goes to
    the end. *)
Fixpoint dict_set (k : string) (v : value) (d : dict) : dict :=
  match d with
  | [] => [(k, v)]
  | (k', v') :: d' =>
      if String.eqb k k' then (k', v) :: d' else (k', v') :: dict_set k v d'
  end.

(** The mapping left by [d.pop(k)]: no entry for [k] remains. *)
Fixpoint dict_remove (k : string) (d : dict) : dict :=
  match d with
  | [] => []
  | (k', v') :: d' =>
      if String.eqb k k' then dict_remove k d' else (k', v') :: dict_remove k d'
  end.

(** [d.update(e)]. *)
Definition dict_update (d e : dict) : dict :=
  fold_left (fun acc kv => dict_set (fst kv) (snd kv) acc) e d.

(** ** [repr] and [str] *)

Definition double_quote : ascii := ascii_of_nat 34.

Definition hex_digit (n : nat) : ascii :=
  ascii_of_nat (if n <? 10 then 48 + n else 87 + n).

(** [str.isprintable] on one character. *)
Definition is_printable (c : ascii) : bool :=
  let n := PyStr.code c in
  ((32 <=? n) && (n <? 127)) || ((161 <=? n) && negb (n =? 173)).

Definition repr_char (quote : ascii) (c : ascii) : string :=
  let n := PyStr.code c in
  if Ascii.eqb c quote || (n =? 92) then String "\" (String c "")
  else if n =? 9 then "\t"
  else if n =? 10 then "\n"
  else if n =? 13 then "\r"
  else if is_printable c then String c ""
  else String "\" (String "x" (String (hex_digit (n / 16)) (String (hex_digit (n mod 16)) ""))).

Fixpoint repr_chars (quote : ascii) (s : string) : string :=
  match s with
  | EmptyString => EmptyString
  | String c s' => repr_char quote c ++ repr_chars quote s'
  end.

Fixpoint has_char (c : ascii) (s : string) : bool :=
  match s with
  | EmptyString => false
  | String d s' => Ascii.eqb c d || has_char c s'
  end.

(** [repr(s)] for a string: single quotes, unless the string holds a
    single quote and no double quote. *)
Definition repr_str (s : string) : string :=
  let quote := if has_char "'" s && negb (has_char double_quote s)
               then double_quote else "'"%char in
  String quote (repr_chars quote s ++ String quote "").

Fixpoint py_repr (v : value) : string :=
  match v with
  | VNone => "None"
  | VBool true => "True"
  | VBool false => "False"
  | VInt z => PyStr.of_Z z
  | VFloat f => float_str f
  | VStr s => repr_str s
  | VList l => "[" ++ PyStr.join ", " (map py_repr l) ++ "]"
  | VDict d =>
      "{" ++ PyStr.join ", " (map (fun kv => repr_str (fst kv) ++ ": " ++ py_repr (snd kv)) d) ++ "}"
  end.

(** [str(v)], where it returns: see [renders]. *)
Definition py_str (v : value) : string :=
  match v with
  | VStr s => s
  | _ => py_repr v
  end.

(** [str(v)] and [repr(v)] return: no integer in [v] has more decimal
    digits than [sys.int_max_str_digits] allows.  On a value with such
    an integer CPython raises [ValueError] instead, and [py_repr] and
    [py_str] are the text it would have built; what is stated about
    the text of a value of any type is stated for a value that
    renders. *)
Fixpoint renders (v : value) : bool :=
  match v with
  | VInt z => String.length (PyStr.of_Z (Z.abs z)) <=? Literal.int_max_str_digits
  | VList l => forallb renders l
  | VDict d => forallb (fun kv => renders (snd kv)) d
  | _ => true
  end.

(** [bool(v)]. *)
Definition py_truthy (v : value) : bool :=
  match v with
  | VNone => false
  | VBool b => b
  | VInt z => negb (z =? 0)%Z
  | VFloat f => float_nonzero f
  | VStr s => negb (String.eqb s "")
  | VList l => match l with [] => false | _ => true end
  | VDict d => match d with [] => false | _ => true end
  end.

(** ** Equality

    [a == b].  Booleans are the integers 0 and 1; integers and floats
    compare by value; lists compare element by element and mappings
    key by key, whatever the order. *)
Definition Z_of_bool (b : bool) : Z := if b then 1%Z else 0%Z.

Fixpoint py_eq (a b : value) : bool :=
  match a, b with
  | VNone, VNone => true
  | VBool x, VBool y => Bool.eqb x y
  | VBool x, VInt y => (Z_of_bool x =? y)%Z
  | VInt x, VBool y => (x =? Z_of_bool y)%Z
  | VInt x, VInt y => (x =? y)%Z
  | VFloat x, VFloat y => float_eq x y
  | VFloat x, VInt y => float_eq_int x y
  | VInt x, VFloat y => float_eq_int y x
  | VFloat x, VBool y => float_eq_int x (Z_of_bool y)
  | VBool x, VFloat y => float_eq_int y (Z_of_bool x)
  | VStr x, VStr y => String.eqb x y
  | VList x, VList y =>
      (fix go (l m : list value) : bool :=
         match l, m with
         | [], [] => true
         | u :: l', w :: m' => py_eq u w && go l' m'
         | _, _ => false
         end) x y
  | VDict x, VDict y =>
      (List.length x =? List.length y)
      && (fix go (d : list (string * value)) : bool :=
            match d with
            | [] => true
            | (k, u) :: d' =>
                match dict_find k y with
                | Some w => py_eq u w
                | None => false
                end && go d'
            end) x
  | _, _ => false
  end.

(** [v in (None, "", [], {})], the emptiness test of the validator. *)
Definition is_blank (v : value) : bool :=
  py_eq v VNone || py_eq v (VStr "") || py_eq v (VList []) || py_eq v (VDict []).

End Values.

Arguments value : clear implicits.
Arguments value {F}.
Arguments dict {F}.

(* ================================================================== *)
(** * The coercers *)
(* ================================================================== *)

Section Coercer.

Context {F : PyFloat}.
Local Open Scope result_scope.

(** [_to_str], on a value that renders. *)
Definition _to_str (v : value) : string :=
  match v with
  | VNone => ""
  | _ => py_str v
  end.

(** [s in {...}] for a set of string literals. *)
Definition str_in (s : string) (l : list string) : bool :=
  existsb (String.eqb s) l.

(** [_to_bool] *)
Definition _to_bool (v : value) : bool :=
  match v with
  | VBool b => b
  | VInt z => negb (z =? 0)%Z
  | VFloat f => float_nonzero f
  | VStr s =>
      let w := PyStr.lower (PyStr.strip s) in
      if str_in w ["true"; "yes"; "y"; "1"] then true
      else if str_in w ["false"; "no"; "n"; "0"] then false
      else py_truthy v
  | _ => py_truthy v
  end.

(** [_to_int].  A boolean is an [int] and is returned as it is. *)
Definition _to_int (v : value) : result value :=
  match v with
  | VBool _ | VInt _ => Ok v
  | VFloat f => z <- float_trunc f ;; Ok (VInt z)
  | _ => z <- Literal.int_of_str (PyStr.strip (py_str v)) ;; Ok (VInt z)
  end.

(** [_to_float] *)
Definition _to_float (v : value) : result value :=
  match v with
  | VBool b => f <- float_of_int (Z_of_bool b) ;; Ok (VFloat f)
  | VInt z => f <- float_of_int z ;; Ok (VFloat f)
  | VFloat _ => Ok v
  | _ => f <- float_of_str (PyStr.strip (py_str v)) ;; Ok (VFloat f)
  end.

(** The filter of lines 40 and 45: the trimmed string is not empty. *)
Definition nonblank (s : string) : bool := negb (String.eqb (PyStr.strip s) "").

(** The element-wise step shared by the two branches of
    [_to_str_list]: keep the strings that are not blank, then trim
    them and strip quote characters at both ends. *)
Definition clean_items (l : list string) : list string :=
  map (fun p => PyStr.strip_quotes (PyStr.strip p)) (filter nonblank l).

(** [_to_str_list], on a value that renders. *)
Definition _to_str_list (v : value) : list string :=
  match v with
  | VNone => []
  | VList l => clean_items (map py_str l)
  | _ =>
      let raw := PyStr.strip (py_str v) in
      let raw :=
        if PyStr.startswith_char "[" raw && PyStr.endswith_char "]" raw
        then PyStr.slice_1_m1 raw else raw in
      let parts := map PyStr.strip (PyStr.split_on "," raw) in
      clean_items parts
  end.

(** A list of strings as a value. *)
Definition str_list (l : list string) : value := VList (map VStr l).

(** [_coerce_value] *)
Definition _coerce_value (expected : string) (v : value) : result value :=
  if String.eqb expected "str" then Ok (VStr (_to_str v))
  else if String.eqb expected "bool" then Ok (VBool (_to_bool v))
  else if String.eqb expected "int" then _to_int v
  else if String.eqb expected "float" then _to_float v
  else if str_in expected ["list"; "list[str]"] then Ok (str_list (_to_str_list v))
  else Ok v.

End Coercer.

(* ================================================================== *)
(** * Signatures and overrides *)
(* ================================================================== *)

(** What [_infer_expected_type] looks at in an annotation: none, one of
    the four scalar types, a list type (bare or subscripted), or
    anything else. *)
Inductive annotation : Type :=
| AnnEmpty | AnnStr | AnnBool | AnnInt | AnnFloat | AnnList | AnnOther.

Record parameter : Type := {
  param_name : string;
  param_annotation : annotation;
  param_has_default : bool
}.

(** [inspect.signature(func).parameters], in declaration order. *)
Definition signature : Type := list parameter.

(** [_infer_expected_type] *)
Definition _infer_expected_type (p : parameter) : string :=
  match param_annotation p with
  | AnnEmpty => "str"
  | AnnStr => "str"
  | AnnBool => "bool"
  | AnnInt => "int"
  | AnnFloat => "float"
  | AnnList => "list[str]"
  | AnnOther => "str"
  end.

Section Override.

Context {F : PyFloat}.

(** One entry of [required_if]: [{"param": p, "when": {...}}]. *)
Record rule : Type := {
  rule_param : string;
  rule_when : list (string * value)
}.

(** [FunctionOverride].  [required] and [optional] are sets in the
    source; the lists give the order in which they are iterated. *)
Record FunctionOverride : Type := {
  expected_types : list (string * string);
  required : list string;
  optional : list string;
  required_if : list rule;
  defaults : list (string * value);
  aliases : list (string * string);
  max_lengths : list (string * Z)
}.

(** [FunctionOverride()] *)
Definition empty_override : FunctionOverride :=
  {| expected_types := []; required := []; optional := []; required_if := [];
     defaults := []; aliases := []; max_lengths := [] |}.

End Override.

(** [d.get(k)] on a table of the configuration. *)
Fixpoint assoc {A : Type} (k : string) (l : list (string * A)) : option A :=
  match l with
  | [] => None
  | (k', a) :: l' => if String.eqb k k' then Some a else assoc k l'
  end.

(* ================================================================== *)
(** * The wrapper built by [make_flex_wrapper] *)
(* ================================================================== *)

Section Wrapper.

Context {F : PyFloat}.
Local Open Scope result_scope.

(** ** Envelope *)

(** [isinstance(v, dict)] *)
Definition is_dict (v : value) : bool :=
  match v with
  | VDict _ => true
  | _ => false
  end.

(** The test of lines 113-118: a single key, [kwargs], that holds a
    mapping. *)
Definition is_envelope (kwargs : dict) : bool :=
  (List.length kwargs =? 1) && dict_mem "kwargs" kwargs
  && is_dict (dict_get "kwargs" kwargs).

(** Lines 113-119: an envelope is replaced by the mapping it holds. *)
Definition unwrap_envelope (kwargs : dict) : dict :=
  if is_envelope kwargs
  then match dict_get "kwargs" kwargs with
       | VDict inner => inner
       | _ => kwargs
       end
  else kwargs.

(** ** Normalizer *)

(** The canonical spelling of a key (lines 125-135). *)
Definition canonical_key (key : string) : string :=
  if str_in key ["phoneNumber"; "phone_number"] then "phone"
  else if str_in key ["groupId"; "group"] then "group_id"
  else if str_in key ["contactId"] then "contact_id"
  else if str_in key ["templateId"] then "template_id"
  else if str_in key ["campaignId"] then "campaign_id"
  else key.

(** The mapping [normalized] built by the loop of lines 124-137;
    membership is tested in the arguments as they were on entry. *)
Definition collect_rewrites (kwargs : dict) : dict :=
  fold_left
    (fun normalized kv =>
       let canonical := canonical_key (fst kv) in
       if negb (dict_mem canonical kwargs)
       then dict_set canonical (snd kv) normalized
       else normalized)
    kwargs [].

Definition rewrite_keys (kwargs : dict) : dict :=
  dict_update kwargs (collect_rewrites kwargs).

(** Lines 141-153. *)
Definition expand_name (kwargs : dict) : dict :=
  let full_name_value :=
    if dict_mem "full_name" kwargs then dict_get "full_name" kwargs
    else if dict_mem "name" kwargs then dict_get "name" kwargs
    else VNone in
  if py_truthy full_name_value
     && (negb (dict_mem "first_name" kwargs) && negb (dict_mem "last_name" kwargs))
  then
    let text := PyStr.strip (py_str full_name_value) in
    let parts := filter (fun p => negb (String.eqb p "")) (PyStr.split_ws text) in
    if List.length parts =? 1
    then dict_set "first_name" (VStr (hd "" parts)) kwargs
    else if 2 <=? List.length parts
    then dict_set "last_name" (VStr (last parts ""))
           (dict_set "first_name" (VStr (PyStr.join " " (removelast parts))) kwargs)
    else kwargs
  else kwargs.

(** The first item of [contacts] whose trimmed string is not empty. *)
Fixpoint first_contact (items : list value) : option string :=
  match items with
  | [] => None
  | item :: rest =>
      let s := PyStr.strip (py_str item) in
      if negb (String.eqb s "") then Some s else first_contact rest
  end.

(** Lines 156-163. *)
Definition fold_contacts (kwargs : dict) : dict :=
  if dict_mem "contacts" kwargs && negb (dict_mem "phone" kwargs)
  then match dict_get "contacts" kwargs with
       | VList items =>
           match first_contact items with
           | Some s => dict_set "phone" (VStr s) kwargs
           | None => kwargs
           end
       | _ => kwargs
       end
  else kwargs.

(** The [try] block of lines 122-165, on arguments that render.  The
    steps that can raise are the two calls of [str], on the name (line
    147) and on an item of [contacts] (line 160); they return on a
    value that renders, and the handler does not run.  On a value that
    does not render the call raises, and the handler keeps what was
    written before it: the rewrite of the keys always, the name
    expansion when the call of line 160 is the one that raises. *)
Definition normalize (kwargs : dict) : dict :=
  fold_contacts (expand_name (rewrite_keys kwargs)).

(** ** Alias resolver (lines 167-170) *)

Definition apply_alias (kwargs : dict) (pair : string * string) : dict :=
  let (alias, canonical) := pair in
  if dict_mem alias kwargs && negb (dict_mem canonical kwargs)
  then dict_set canonical (dict_get alias kwargs) (dict_remove alias kwargs)
  else kwargs.

Definition apply_aliases (table : list (string * string)) (kwargs : dict) : dict :=
  fold_left apply_alias table kwargs.

(** ** Binding (lines 172-191) *)

Definition seed_defaults (ov : FunctionOverride) : dict :=
  fold_left (fun bound kv => dict_set (fst kv) (snd kv) bound) (defaults ov) [].

(** [override.expected_types.get(name) or _infer_expected_type(param)] *)
Definition resolved_kind (ov : FunctionOverride) (p : parameter) : string :=
  match assoc (param_name p) (expected_types ov) with
  | Some kind => if String.eqb kind "" then _infer_expected_type p else kind
  | None => _infer_expected_type p
  end.

Fixpoint bind_params (ov : FunctionOverride) (sig : signature)
         (kwargs bound : dict) : result dict :=
  match sig with
  | [] => Ok bound
  | p :: sig' =>
      if dict_mem (param_name p) kwargs
      then v <- _coerce_value (resolved_kind ov p) (dict_get (param_name p) kwargs) ;;
           bind_params ov sig' kwargs (dict_set (param_name p) v bound)
      else bind_params ov sig' kwargs bound
  end.

Definition pass_through (kwargs bound : dict) : dict :=
  fold_left
    (fun bound kv =>
       if negb (dict_mem (fst kv) bound) then dict_set (fst kv) (snd kv) bound
       else bound)
    kwargs bound.

Definition build_binding (ov : FunctionOverride) (sig : signature)
           (kwargs : dict) : result dict :=
  bound <- bind_params ov sig kwargs (seed_defaults ov) ;;
  Ok (pass_through kwargs bound).

(** ** Validator (lines 194-222) *)

Definition missing_required (ov : FunctionOverride) (bound : dict) : list string :=
  filter (fun req => is_blank (dict_get req bound)) (required ov).

Definition rule_meets (bound : dict) (r : rule) : bool :=
  forallb (fun cond => py_eq (dict_get (fst cond) bound) (snd cond)) (rule_when r).

Definition rule_fires (bound : dict) (r : rule) : bool :=
  rule_meets bound r && is_blank (dict_get (rule_param r) bound).

Definition missing_conditional (ov : FunctionOverride) (bound : dict) : list string :=
  map rule_param (filter (rule_fires bound) (required_if ov)).

(** The list [missing] when line 211 is reached. *)
Definition missing (ov : FunctionOverride) (bound : dict) : list string :=
  missing_required ov bound ++ missing_conditional ov bound.

Definition error_dict (msg : string) : value := VDict [("error", VStr msg)].

Definition missing_message (names : list string) : string :=
  "Missing required parameter(s): " ++ PyStr.join ", " (PyStr.sorted_set names).

Definition too_long (bound : dict) (entry : string * Z) : option nat :=
  match dict_get (fst entry) bound with
  | VStr s => if (snd entry <? Z.of_nat (String.length s))%Z
              then Some (String.length s) else None
  | _ => None
  end.

Definition too_long_message (field_name : string) (len : nat) (max_len : Z) : string :=
  field_name ++ " is too long (" ++ PyStr.of_Z (Z.of_nat len) ++ " characters). "
  ++ "Maximum allowed is " ++ PyStr.of_Z max_len ++ ". Please shorten it and try again.".

(** The loop of lines 214-222: the first violation, if any. *)
Fixpoint check_lengths (bound : dict) (limits : list (string * Z)) : option string :=
  match limits with
  | [] => None
  | entry :: rest =>
      match too_long bound entry with
      | Some len => Some (too_long_message (fst entry) len (snd entry))
      | None => check_lengths bound rest
      end
  end.

(** ** The wrapper

    What the wrapper does with its arguments: it returns a value of its
    own, it raises, or it ends in the call of the domain function on
    the binding (line 224). *)
Inductive outcome : Type :=
| Returns (v : value)
| Raises (e : exn)
| Invokes (bound : dict).

Definition validate (ov : FunctionOverride) (bound : dict) : outcome :=
  match missing ov bound with
  | _ :: _ => Returns (error_dict (missing_message (missing ov bound)))
  | [] =>
      match check_lengths bound (max_lengths ov) with
      | Some msg => Returns (error_dict msg)
      | None => Invokes bound
      end
  end.

(** The arguments after envelope, normalizer and alias resolver. *)
Definition resolve_args (ov : FunctionOverride) (raw : dict) : dict :=
  apply_aliases (aliases ov) (normalize (unwrap_envelope raw)).

Definition wrapper_outcome (ov : FunctionOverride) (sig : signature)
           (raw : dict) : outcome :=
  match build_binding ov sig (resolve_args ov raw) with
  | Exc e => Raises e
  | Ok bound => validate ov bound
  end.

(** The wrapper around a domain function: its result, and the list of
    bindings the domain function was called with. *)
Definition wrapper (func : dict -> result value) (ov : FunctionOverride)
           (sig : signature) (raw : dict) : result value * list dict :=
  match wrapper_outcome ov sig raw with
  | Returns v => (Ok v, [])
  | Raises e => (Exc e, [])
  | Invokes bound => (func bound, [bound])
  end.

End Wrapper.

(* ================================================================== *)
(** * The shipped configuration ([default_overrides], [default_aliases]) *)
(* ================================================================== *)

(** [{**a, **b}] on alias tables. *)
Fixpoint alias_set (k c : string) (t : list (string * string)) : list (string * string) :=
  match t with
  | [] => [(k, c)]
  | (k', c') :: t' =>
      if String.eqb k k' then (k', c) :: t' else (k', c') :: alias_set k c t'
  end.

Definition merge_aliases (a b : list (string * string)) : list (string * string) :=
  fold_left (fun t kc => alias_set (fst kc) (snd kc) t) b a.

Section Shipped.

Context {F : PyFloat}.

Definition schedule_rule : rule :=
  {| rule_param := "schedule_time"; rule_when := [("schedule", VBool true)] |}.

Definition send_quick_bulk_sms_override : FunctionOverride :=
  {| expected_types :=
       [("recipient", "list[str]"); ("sender_id", "str"); ("message", "str");
        ("schedule", "bool"); ("schedule_time", "str")];
     required := ["recipient"; "sender_id"; "message"];
     optional := ["schedule"; "schedule_time"];
     required_if := [schedule_rule];
     defaults := [("schedule", VBool false)];
     aliases := [("recipients", "recipient")];
     max_lengths := [("message", 460%Z)] |}.

Definition send_bulk_group_sms_override : FunctionOverride :=
  {| expected_types :=
       [("group_id", "list[str]"); ("sender_id", "str"); ("message", "str");
        ("schedule", "bool"); ("schedule_time", "str")];
     required := ["group_id"; "sender_id"; "message"];
     optional := ["schedule"; "schedule_time"];
     required_if := [schedule_rule];
     defaults := [("schedule", VBool false)];
     aliases := [];
     max_lengths := [("message", 460%Z)] |}.

Definition update_scheduled_sms_override : FunctionOverride :=
  {| expected_types :=
       [("_id", "str"); ("sender_id", "str"); ("schedule_time", "str"); ("message", "str")];
     required := ["_id"; "sender_id"; "schedule_time"];
     optional := ["message"];
     required_if := [];
     defaults := [];
     aliases := [];
     max_lengths := [("message", 460%Z)] |}.

Definition add_contact_override : FunctionOverride :=
  {| expected_types :=
       [("group_id", "str"); ("phone", "str"); ("first_name", "str");
        ("last_name", "str"); ("dob", "str"); ("email", "str")];
     required := ["group_id"; "phone"];
     optional := [];
     required_if := [];
     defaults := [];
     aliases := [("group", "group_id"); ("phone_number", "phone"); ("phoneNumber", "phone")];
     max_lengths := [] |}.

Definition update_contact_override : FunctionOverride :=
  {| expected_types :=
       [("contact_id", "str"); ("phone", "str"); ("first_name", "str");
        ("last_name", "str"); ("dob", "str"); ("email", "str"); ("group_id", "str")];
     required := ["contact_id"; "phone"];
     optional := [];
     required_if := [];
     defaults := [];
     aliases := [("group", "group_id"); ("phone_number", "phone");
                 ("phoneNumber", "phone"); ("contactId", "contact_id")];
     max_lengths := [] |}.

(** [default_overrides()]: the tools with an override of their own;
    every other tool gets [FunctionOverride()]. *)
Definition default_overrides : list (string * FunctionOverride) :=
  [("send_quick_bulk_sms", send_quick_bulk_sms_override);
   ("send_bulk_group_sms", send_bulk_group_sms_override);
   ("update_scheduled_sms", update_scheduled_sms_override);
   ("add_contact", add_contact_override);
   ("update_contact", update_contact_override)].

(** [default_aliases()] *)
Definition default_aliases : list (string * list (string * string)) :=
  [("send_quick_bulk_sms", [("recipients", "recipient")]);
   ("send_bulk_group_sms", [("groups", "group_id"); ("group_ids", "group_id")])].

(** The override a tool is registered with (lines 373-374): its own
    or the empty one, the global alias table merged below its own. *)
Definition registered_override (name : string) : FunctionOverride :=
  let ov := match assoc name default_overrides with
            | Some ov => ov
            | None => empty_override
            end in
  let global := match assoc name default_aliases with
                | Some t => t
                | None => []
                end in
  {| expected_types := expected_types ov; required := required ov;
     optional := optional ov; required_if := required_if ov;
     defaults := defaults ov; aliases := merge_aliases global (aliases ov);
     max_lengths := max_lengths ov |}.

End Shipped.

(** A runtime without float values: the carrier is empty and every
    conversion to float fails.  It closes the examples below, whose
    arguments hold no float and whose parameters are not of kind
    float. *)
Definition NoFloat : PyFloat :=
  {| float := Empty_set;
     float_str := fun f => match f with end;
     float_nonzero := fun f => match f with end;
     float_trunc := fun f => match f with end;
     float_of_int := fun _ => Exc OverflowError;
     float_of_str := fun _ => Exc ValueError;
     float_eq := fun f _ => match f with end;
     float_eq_int := fun f _ => match f with end;
     float_of_str_malformed := fun _ _ => eq_refl |}.

(* ================================================================== *)
(** * Notions used in the statements *)
(* ================================================================== *)

(** Modelled from the spec: the parameters of the domain function
    [send_quick_bulk_sms], which lives in [functions.py].  The names are
    those of the end-to-end scenario of the spec and of the override's
    [expected_types]; the override fixes every kind, so the annotations
    play no part. *)
Definition send_quick_bulk_sms_signature : signature :=
  map (fun name => {| param_name := name; param_annotation := AnnEmpty;
                      param_has_default := false |})
      ["recipient"; "sender_id"; "message"; "schedule"; "schedule_time"].


Section Notions.

Context {F : PyFloat}.

(** The order of [sorted] on strings: code point by code point. *)
Definition str_le (a b : string) : Prop := String.leb a b = true.

(** The claim's reading of a missing field: absent, or bound to the
    empty string, the empty list or the empty mapping. *)
Definition absent_or_empty (bound : dict) (field : string) : Prop :=
  dict_find field bound = None \/ dict_find field bound = Some (VStr "")
  \/ dict_find field bound = Some (VList []) \/ dict_find field bound = Some (VDict []).

(** The step of the loops that store entries one by one. *)
Definition set_entry (acc : dict) (kv : string * value) : dict :=
  dict_set (fst kv) (snd kv) acc.

(** The bound value of a key is absent (no entry, or [None], which is
    what [get] returns for a key without entry) or empty. *)
Definition absent_or_blank (bound : dict) (key : string) : Prop :=
  dict_find key bound = None \/ dict_find key bound = Some VNone
  \/ dict_find key bound = Some (VStr "") \/ dict_find key bound = Some (VList [])
  \/ dict_find key bound = Some (VDict []).

(** The arguments of the scenario of the spec, with further entries. *)
Definition sms_call (extra : dict) : dict :=
  ([("recipient", VList [VStr "+233200000000"]); ("sender_id", VStr "ACME");
    ("message", VStr "Hi")] ++ extra)%list.

(** The variant spellings the rewrite step reads. *)
Definition variant_keys : list string :=
  ["phoneNumber"; "phone_number"; "groupId"; "group"; "contactId"; "templateId"; "campaignId"].

(** The canonical keys the rewrite step writes. *)
Definition canonical_targets : list string :=
  ["phone"; "group_id"; "contact_id"; "template_id"; "campaign_id"].

(** The body of the loop of lines 124-137, for one entry. *)
Definition rewrite_step (kwargs normalized : dict) (kv : string * value) : dict :=
  let canonical := canonical_key (fst kv) in
  if negb (dict_mem canonical kwargs)
  then dict_set canonical (snd kv) normalized
  else normalized.

(** The value the name is taken from: [full_name], or [name] when
    [full_name] is absent. *)
Definition name_source (kwargs : dict) (v : value) : Prop :=
  dict_find "full_name" kwargs = Some v
  \/ (dict_find "full_name" kwargs = None /\ dict_find "name" kwargs = Some v).

(** The tokens the name expansion works on: those of the trimmed string
    form of a truthy value, none for a value that is not truthy. *)
Definition name_tokens (v : value) : list string :=
  if py_truthy v then PyStr.split_ws (PyStr.strip (py_str v)) else [].

(** What the expansion leaves in the arguments [out] for a list of
    tokens. *)
Definition name_expansion (tokens : list string) (out : dict) : Prop :=
  match tokens with
  | [] => dict_find "first_name" out = None /\ dict_find "last_name" out = None
  | [t] => dict_find "first_name" out = Some (VStr t) /\ dict_find "last_name" out = None
  | _ => dict_find "first_name" out = Some (VStr (PyStr.join " " (removelast tokens)))
         /\ dict_find "last_name" out = Some (VStr (last tokens ""))
  end.

(** Trim, then strip quote characters at both ends. *)
Definition tidy (s : string) : string := PyStr.strip_quotes (PyStr.strip s).

(** The raw items of a value: the stringified elements of a list; for
    anything else the pieces between the commas of its string form,
    trimmed and freed of one pair of enclosing brackets. *)
Definition str_list_items (v : value) : list string :=
  match v with
  | VList l => map py_str l
  | _ =>
      let raw := PyStr.strip (py_str v) in
      PyStr.split_on ","
        (if PyStr.startswith_char "[" raw && PyStr.endswith_char "]" raw
         then PyStr.slice_1_m1 raw else raw)
  end.

(** A string that is not the empty string. *)
Definition nonempty (s : string) : bool := negb (String.eqb s "").

(** A string without the pair of matching quote characters around it,
    when it has one. *)
Definition unquote (s : string) : string :=
  match s with
  | String q _ =>
      if PyStr.is_quote q && (2 <=? String.length s) && PyStr.endswith_char q s
      then PyStr.slice_1_m1 s else s
  | EmptyString => s
  end.

(** The string-list kind as the claim words it: every item trimmed,
    its matching leading and trailing quote characters stripped, and
    the empty results dropped. *)
Definition claimed_str_list (v : value) : list string :=
  filter nonempty (map (fun item => unquote (PyStr.strip item)) (str_list_items v)).

(** The test of line 169: the alias is present, the canonical key is
    not. *)
Definition alias_fires (m : dict) (pair : string * string) : bool :=
  dict_mem (fst pair) m && negb (dict_mem (snd pair) m).

(** Keys an alias must not be: the keys the normalizer writes or takes
    a name or a contact from. *)
Definition reserved_alias_keys : list string :=
  (canonical_targets ++ ["first_name"; "last_name"; "full_name"; "name"; "contacts"])%list.

(** Keys a canonical key must not be: the keys the normalizer reads. *)
Definition reserved_canonical_keys : list string :=
  (variant_keys ++ ["full_name"; "name"; "contacts"])%list.

(** An alias table that does not interfere with the normalizer and
    does not chain: no alias is a reserved alias key, no canonical key
    is a reserved canonical key or an alias of the table. *)
Definition pair_ok (table : list (string * string)) (pair : string * string) : bool :=
  negb (str_in (fst pair) reserved_alias_keys)
  && negb (str_in (snd pair) reserved_canonical_keys)
  && negb (str_in (snd pair) (map fst table)).

(** Every pair of the table passes [pair_ok]. *)
Definition table_ok (table : list (string * string)) : bool :=
  forallb (pair_ok table) table.








(** A domain function that returns its keyword arguments. *)
Definition echo (bound : dict) : result value := Ok (VDict bound).

(** The string of [n] times the character [c]. *)
Fixpoint replicate (c : ascii) (n : nat) : string :=
  match n with
  | O => EmptyString
  | S n' => String c (replicate c n')
  end.

End Notions.

(* ================================================================== *)
(** * The registry ([register_flex_functions]) *)
(* ================================================================== *)

(** A function returned by [inspect.getmembers]: the name it has in the
    module, its own [__name__], the name of the module it was defined
    in, and its signature. *)
Record member : Type := {
  member_name : string;
  member_func_name : string;
  member_module : string;
  member_signature : signature
}.

(** The helper functions of line 370, which are no tools. *)
Definition excluded_names : list string :=
  ["main"; "safe_api_call"; "validate_sms_request"; "validate_contact_data"].

(** The three tests of lines 364-371: the name is public, the function
    was defined in the module itself, and it is no helper. *)
Definition is_tool (module_name : string) (m : member) : bool :=
  negb (PyStr.startswith_char "_" (member_name m))
  && String.eqb (member_module m) module_name
  && negb (str_in (member_name m) excluded_names).

Section Registry.

Context {F : PyFloat}.

(** [given or default()] on a table: an absent table and an empty one
    both give the default. *)
Definition table_or {A : Type} (given default : list A) : list A :=
  match given with
  | [] => default
  | _ => given
  end.

(** Lines 373-374: the override of the table, or an empty one, with the
    global aliases of the tool merged below its own.  The overrides of
    a table are distinct objects, so that the assignment to [aliases]
    reaches this tool only. *)
Definition override_for (overrides : list (string * FunctionOverride))
           (aliases_table : list (string * list (string * string)))
           (name : string) : FunctionOverride :=
  let ov := match assoc name overrides with
            | Some ov => ov
            | None => empty_override
            end in
  let global := match assoc name aliases_table with
                | Some t => t
                | None => []
                end in
  {| expected_types := expected_types ov; required := required ov;
     optional := optional ov; required_if := required_if ov;
     defaults := defaults ov; aliases := merge_aliases global (aliases ov);
     max_lengths := max_lengths ov |}.

(** A registered tool: the name the wrapper shows (the [__name__] of
    the function), the override and the signature it was built from. *)
Record tool : Type := {
  tool_name : string;
  tool_override : FunctionOverride;
  tool_signature : signature
}.

(** [register_flex_functions]: the tools added to the agent, in the
    order of the members; the returned list is [map tool_name] of
    them. *)
Definition register_flex_functions (module_name : string) (members : list member)
           (overrides : list (string * FunctionOverride))
           (aliases_table : list (string * list (string * string))) : list tool :=
  let overrides := table_or overrides default_overrides in
  let aliases_table := table_or aliases_table default_aliases in
  map (fun m => {| tool_name := member_func_name m;
                   tool_override := override_for overrides aliases_table (member_name m);
                   tool_signature := member_signature m |})
      (filter (is_tool module_name) members).

Definition registered_names (tools : list tool) : list string := map tool_name tools.

(** ** Further notions used in the statements *)

(** A binding that meets every constraint of an override. *)
Definition valid_binding (ov : FunctionOverride) (bound : dict) : Prop :=
  (forall r, In r (required ov) -> is_blank (dict_get r bound) = false)
  /\ (forall r, In r (required_if ov) -> rule_meets bound r = true ->
                is_blank (dict_get (rule_param r) bound) = false)
  /\ (forall field lim s, In (field, lim) (max_lengths ov) ->
                          dict_find field bound = Some (VStr s) ->
                          (Z.of_nat (String.length s) <= lim)%Z).

(** An item of [contacts] whose trimmed string form is empty. *)
Definition blank_item (item : value) : bool :=
  String.eqb (PyStr.strip (py_str item)) "".

(** The first alias of a canonical key, in the order of the table,
    that the arguments hold. *)
Fixpoint first_alias (table : list (string * string)) (c : string)
         (m : dict) : option string :=
  match table with
  | [] => None
  | (a, c') :: rest =>
      if String.eqb c' c && dict_mem a m then Some a else first_alias rest c m
  end.

(** The value of the last entry of the arguments, in their order,
    whose key has the canonical spelling [k]. *)
Fixpoint last_spelling (k : string) (m : dict) : option value :=
  match m with
  | [] => None
  | (key, v) :: m' =>
      match last_spelling k m' with
      | Some w => Some w
      | None => if String.eqb (canonical_key key) k then Some v else None
      end
  end.

(** No canonical key of the table is an alias of the table. *)
Definition chain_free (table : list (string * string)) : Prop :=
  forall c, In c (map snd table) -> ~ In c (map fst table).

End Registry.

(** Every character of a string satisfies a test. *)
Fixpoint all_chars (p : ascii -> bool) (s : string) : bool :=
  match s with
  | EmptyString => true
  | String c s' => p c && all_chars p s'
  end.

(** A token a comma-separated list can carry unchanged: not empty, no
    comma, and neither white space nor a quote character at its
    ends. *)
Definition plain_edge (c : ascii) : bool :=
  negb (PyStr.is_space c) && negb (PyStr.is_quote c).

Definition plain_token (t : string) : bool :=
  all_chars (fun c => negb (Ascii.eqb c ",")) t
  && match t with
     | String c _ => plain_edge c
     | EmptyString => false
     end
  && match PyStr.rev t with
     | String c _ => plain_edge c
     | EmptyString => false
     end.

(* ================================================================== *)
(** * Lemmas on strings *)
(* ================================================================== *)

Ltac str_case a b :=
  let E := fresh "E" in
  destruct (String.eqb a b) eqn:E;
  [apply String.eqb_eq in E | apply String.eqb_neq in E].

Section StringFacts.

Import PyStr.

Lemma rev_involutive (s : string) : rev (rev s) = s.
Proof.
  unfold rev. rewrite list_ascii_of_string_of_list_ascii, List.rev_involutive.
  apply string_of_list_ascii_of_string.
Qed.

Lemma drop_while_head (p : ascii -> bool) (s : string) :
  match drop_while p s with
  | String c _ => p c = false
  | EmptyString => True
  end.
Proof.
  induction s as [|c s IH]; simpl; [exact I|].
  destruct (p c) eqn:E; [exact IH | exact E].
Qed.

(** After [strip_by p] the last character, if any, does not satisfy
    [p]. *)
Lemma strip_by_last (p : ascii -> bool) (s : string) :
  match rev (strip_by p s) with
  | String c _ => p c = false
  | EmptyString => True
  end.
Proof.
  unfold strip_by. rewrite rev_involutive. apply drop_while_head.
Qed.

Lemma append_nil_r (s : string) : s ++ "" = s.
Proof. induction s; simpl; congruence. Qed.

Lemma append_assoc (a b c : string) : (a ++ b) ++ c = a ++ (b ++ c).
Proof. induction a; simpl; congruence. Qed.

Lemma prefix_append (a b : string) : String.prefix a (a ++ b) = true.
Proof.
  induction a as [|c a IH]; simpl.
  - destruct b; reflexivity.
  - destruct (ascii_dec c c); [exact IH | congruence].
Qed.

Lemma contains_prefix (sub s : string) :
  String.prefix sub s = true -> contains sub s = true.
Proof. intros H. destruct s; cbn [contains]; rewrite H; reflexivity. Qed.

Lemma contains_append_r (sub a b : string) :
  contains sub b = true -> contains sub (a ++ b) = true.
Proof.
  intros H. induction a as [|c a IH]; simpl; [exact H|].
  rewrite IH. apply orb_true_r.
Qed.

Lemma contains_append_l (sub b : string) :
  contains sub (sub ++ b) = true.
Proof. apply contains_prefix, prefix_append. Qed.

(** Each string of a list occurs in the joined string. *)
Lemma contains_join (sep x : string) (l : list string) :
  In x l -> contains x (join sep l) = true.
Proof.
  unfold join. induction l as [|y l IH]; intros HIn; [destruct HIn|].
  destruct HIn as [-> | HIn].
  - destruct l as [|z l]; cbn [String.concat].
    + pose proof (contains_append_l x "") as H.
      rewrite append_nil_r in H. exact H.
    + apply contains_append_l.
  - destruct l as [|z l]; [destruct HIn|].
    change (String.concat sep (y :: z :: l))
      with (y ++ sep ++ String.concat sep (z :: l)).
    rewrite <- append_assoc. apply contains_append_r, IH, HIn.
Qed.

(** ** Sorting *)

Lemma leb_total (a b : string) : String.leb a b = false -> String.leb b a = true.
Proof.
  unfold String.leb. rewrite (String.compare_antisym b a).
  destruct (String.compare a b); simpl; congruence.
Qed.

Lemma In_insert_sorted (x y : string) (l : list string) :
  In y (insert_sorted x l) <-> y = x \/ In y l.
Proof.
  induction l as [|z l IH]; simpl.
  - intuition congruence.
  - destruct (String.leb x z); simpl; rewrite ?IH; intuition congruence.
Qed.

Lemma In_sort (y : string) (l : list string) : In y (sort l) <-> In y l.
Proof.
  induction l as [|x l IH]; simpl; [tauto|].
  rewrite In_insert_sorted, IH. intuition congruence.
Qed.

Lemma insert_sorted_Sorted (x : string) (l : list string) :
  Sorted str_le l -> Sorted str_le (insert_sorted x l).
Proof.
  induction l as [|y l IH]; intros HS; simpl.
  - repeat constructor.
  - destruct (String.leb x y) eqn:E.
    + constructor; [exact HS | constructor; exact E].
    + inversion HS as [|? ? HS' HR]; subst.
      constructor; [apply IH, HS'|].
      destruct l as [|z l]; simpl.
      * constructor. apply leb_total, E.
      * destruct (String.leb x z); constructor.
        -- apply leb_total, E.
        -- inversion HR; assumption.
Qed.

Lemma sort_Sorted (l : list string) : Sorted str_le (sort l).
Proof.
  induction l as [|x l IH]; simpl; [constructor | apply insert_sorted_Sorted, IH].
Qed.

Lemma insert_sorted_NoDup (x : string) (l : list string) :
  ~ In x l -> NoDup l -> NoDup (insert_sorted x l).
Proof.
  induction l as [|y l IH]; intros HNI HND; simpl.
  - constructor; [intros []| constructor].
  - destruct (String.leb x y).
    + constructor; assumption.
    + inversion HND as [|? ? HNy HND']; subst.
      constructor.
      * rewrite In_insert_sorted. intros [-> | H]; [apply HNI; left; reflexivity | contradiction].
      * apply IH; [intros H; apply HNI; right; exact H | exact HND'].
Qed.

Lemma sort_NoDup (l : list string) : NoDup l -> NoDup (sort l).
Proof.
  induction 1 as [|x l HNI HND IH]; simpl; [constructor|].
  apply insert_sorted_NoDup; [rewrite In_sort; exact HNI | exact IH].
Qed.

Lemma In_sorted_set (y : string) (l : list string) :
  In y (sorted_set l) <-> In y l.
Proof. unfold sorted_set. rewrite In_sort. apply nodup_In. Qed.

Lemma sorted_set_Sorted (l : list string) : Sorted str_le (sorted_set l).
Proof. apply sort_Sorted. Qed.

Lemma sorted_set_NoDup (l : list string) : NoDup (sorted_set l).
Proof. apply sort_NoDup, NoDup_nodup. Qed.

End StringFacts.

(* ================================================================== *)
(** * Lemmas on dictionaries *)
(* ================================================================== *)

Section DictFacts.

Context {F : PyFloat}.
Implicit Types (d : dict) (k : string) (v : value).

Lemma dict_mem_find k d : dict_mem k d = true <-> exists v, dict_find k d = Some v.
Proof.
  unfold dict_mem. destruct (dict_find k d) as [v|].
  - split; [eauto | reflexivity].
  - split; [discriminate | intros [v H]; discriminate].
Qed.

Lemma dict_mem_false k d : dict_mem k d = false <-> dict_find k d = None.
Proof.
  unfold dict_mem. destruct (dict_find k d); split; congruence.
Qed.

Lemma dict_get_find k d v : dict_find k d = Some v -> dict_get k d = v.
Proof. unfold dict_get. intros ->. reflexivity. Qed.

Lemma dict_find_In k d v : dict_find k d = Some v -> In (k, v) d.
Proof.
  induction d as [|[k' v'] d IH]; simpl; [discriminate|].
  str_case k k'.
  - intros [= ->]. subst. left. reflexivity.
  - intros H. right. apply IH, H.
Qed.

Lemma In_dict_mem k v d : In (k, v) d -> dict_mem k d = true.
Proof.
  intros HIn. apply dict_mem_find.
  induction d as [|[k' v'] d IH]; simpl; [destruct HIn|].
  str_case k k'; [eauto|].
  destruct HIn as [[= -> ->] | HIn]; [congruence | apply IH, HIn].
Qed.

Lemma dict_find_set_eq k v d : dict_find k (dict_set k v d) = Some v.
Proof.
  induction d as [|[k' v'] d IH]; simpl.
  - rewrite String.eqb_refl. reflexivity.
  - str_case k k'; simpl.
    + subst. rewrite String.eqb_refl. reflexivity.
    + apply String.eqb_neq in E. rewrite E. exact IH.
Qed.

Lemma dict_find_set_neq k k' v d :
  k <> k' -> dict_find k (dict_set k' v d) = dict_find k d.
Proof.
  intros Hne. induction d as [|[k2 v2] d IH]; simpl.
  - apply String.eqb_neq in Hne. rewrite Hne. reflexivity.
  - str_case k' k2; simpl.
    + subst. apply String.eqb_neq in Hne. rewrite Hne. reflexivity.
    + rewrite IH. reflexivity.
Qed.

Lemma dict_find_set k k' v d :
  dict_find k (dict_set k' v d) = if String.eqb k k' then Some v else dict_find k d.
Proof.
  str_case k k'; [subst; apply dict_find_set_eq | apply dict_find_set_neq, E].
Qed.

Lemma dict_mem_set k k' v d :
  dict_mem k (dict_set k' v d) = String.eqb k k' || dict_mem k d.
Proof.
  unfold dict_mem. rewrite dict_find_set. destruct (String.eqb k k'); reflexivity.
Qed.

Lemma dict_find_remove k k' d :
  dict_find k (dict_remove k' d) = if String.eqb k k' then None else dict_find k d.
Proof.
  induction d as [|[k2 v2] d IH]; simpl.
  - destruct (String.eqb k k'); reflexivity.
  - str_case k' k2; simpl.
    + subst. rewrite IH. str_case k k2; reflexivity.
    + rewrite IH. str_case k k'; [|reflexivity].
      subst. apply String.eqb_neq in E. rewrite E. reflexivity.
Qed.

Lemma dict_mem_remove k k' d :
  dict_mem k (dict_remove k' d) = negb (String.eqb k k') && dict_mem k d.
Proof.
  unfold dict_mem. rewrite dict_find_remove. destruct (String.eqb k k'); reflexivity.
Qed.

(** Setting a key that is absent appends the entry. *)
Lemma dict_set_absent k v d : dict_find k d = None -> dict_set k v d = (d ++ [(k, v)])%list.
Proof.
  induction d as [|[k' v'] d IH]; simpl; [reflexivity|].
  str_case k k'; [discriminate|].
  intros H. rewrite IH by exact H. reflexivity.
Qed.

(** ** The emptiness test *)

Lemma is_blank_iff v :
  is_blank v = true <-> v = VNone \/ v = VStr "" \/ v = VList [] \/ v = VDict [].
Proof.
  unfold is_blank. split.
  - destruct v as [| | | |s|l|d]; simpl; try discriminate; auto.
    + rewrite !orb_false_r. intros H. apply String.eqb_eq in H. subst. auto.
    + destruct l; [auto | discriminate].
    + destruct d; [auto | discriminate].
  - intros [-> | [-> | [-> | ->]]]; reflexivity.
Qed.

(** A field is blank in a binding when it is absent or bound to
    [None], to the empty string, to the empty list or to the empty
    mapping. *)
Lemma blank_field_iff k d :
  is_blank (dict_get k d) = true <->
  dict_find k d = None \/ dict_find k d = Some VNone
  \/ dict_find k d = Some (VStr "") \/ dict_find k d = Some (VList [])
  \/ dict_find k d = Some (VDict []).
Proof.
  rewrite is_blank_iff. unfold dict_get.
  destruct (dict_find k d) as [v|].
  - split.
    + intros [-> | [-> | [-> | ->]]]; auto.
    + intros [H | [H | [H | [H | H]]]]; inversion H; auto.
  - split; auto.
Qed.

End DictFacts.

(* ================================================================== *)
(** * The validator *)
(* ================================================================== *)

Section ValidatorFacts.

Context {F : PyFloat}.
Implicit Types (ov : FunctionOverride) (bound : dict).

Lemma absent_or_empty_blank bound field :
  absent_or_empty bound field -> is_blank (dict_get field bound) = true.
Proof.
  intros H. apply blank_field_iff. unfold absent_or_empty in H. tauto.
Qed.

Lemma validate_missing ov bound :
  missing ov bound <> [] ->
  validate ov bound = Returns (error_dict (missing_message (missing ov bound))).
Proof.
  unfold validate. destruct (missing ov bound); [congruence | reflexivity].
Qed.

Lemma validate_no_missing ov bound :
  missing ov bound = [] ->
  validate ov bound =
    match check_lengths bound (max_lengths ov) with
    | Some msg => Returns (error_dict msg)
    | None => Invokes bound
    end.
Proof. unfold validate. intros ->. reflexivity. Qed.

Lemma In_missing_required ov bound field :
  In field (missing_required ov bound) <->
  In field (required ov) /\ is_blank (dict_get field bound) = true.
Proof. unfold missing_required. apply filter_In. Qed.

Lemma rule_fires_iff bound (r : rule) :
  rule_fires bound r = true <->
  (forall wkey wval, In (wkey, wval) (rule_when r) ->
                     py_eq (dict_get wkey bound) wval = true)
  /\ is_blank (dict_get (rule_param r) bound) = true.
Proof.
  unfold rule_fires, rule_meets. rewrite andb_true_iff, forallb_forall.
  split; intros [H1 H2]; split; try exact H2.
  - intros wkey wval HIn. apply (H1 (wkey, wval) HIn).
  - intros [wkey wval] HIn. apply H1, HIn.
Qed.

Lemma In_missing_conditional ov bound field :
  In field (missing_conditional ov bound) <->
  exists r, In r (required_if ov) /\ rule_param r = field /\ rule_fires bound r = true.
Proof.
  unfold missing_conditional. rewrite in_map_iff. split.
  - intros [r [Hp HIn]]. apply filter_In in HIn. exists r. tauto.
  - intros [r [HIn [Hp Hf]]]. exists r. split; [exact Hp|].
    apply filter_In. tauto.
Qed.

Lemma In_missing ov bound field :
  In field (missing ov bound) <->
  In field (missing_required ov bound) \/ In field (missing_conditional ov bound).
Proof. unfold missing. apply in_app_iff. Qed.

Lemma missing_message_contains (names : list string) (field : string) :
  In field names -> PyStr.contains field (missing_message names) = true.
Proof.
  intros HIn. unfold missing_message.
  apply contains_append_r, contains_join, In_sorted_set, HIn.
Qed.

(** ** The length check *)

Lemma too_long_iff bound (entry : string * Z) (len : nat) :
  too_long bound entry = Some len <->
  exists s, dict_find (fst entry) bound = Some (VStr s)
            /\ (snd entry < Z.of_nat (String.length s))%Z /\ len = String.length s.
Proof.
  unfold too_long, dict_get.
  destruct (dict_find (fst entry) bound) as [[| | | |s| |]|]; simpl;
    try (split; [discriminate | intros [s' [H _]]; discriminate]).
  destruct (snd entry <? Z.of_nat (String.length s))%Z eqn:E.
  - apply Z.ltb_lt in E. split.
    + intros [= <-]. exists s. auto.
    + intros [s' [[= <-] [_ ->]]]. reflexivity.
  - apply Z.ltb_ge in E. split; [discriminate|].
    intros [s' [[= <-] [Hlt _]]]. lia.
Qed.

(** The length check reports the first entry in violation. *)
Lemma check_lengths_Some bound (limits : list (string * Z)) (msg : string) :
  check_lengths bound limits = Some msg ->
  exists field lim s,
    In (field, lim) limits /\ dict_find field bound = Some (VStr s)
    /\ (lim < Z.of_nat (String.length s))%Z
    /\ msg = too_long_message field (String.length s) lim.
Proof.
  induction limits as [|[field lim] limits IH]; simpl; [discriminate|].
  destruct (too_long bound (field, lim)) as [len|] eqn:E.
  - intros [= <-]. apply too_long_iff in E. destruct E as [s [Hf [Hlt ->]]].
    exists field, lim, s. simpl in *. auto.
  - intros H. destruct (IH H) as [f [l [s [HIn Hrest]]]].
    exists f, l, s. split; [right; exact HIn | exact Hrest].
Qed.

Lemma check_lengths_None bound (limits : list (string * Z)) :
  check_lengths bound limits = None <->
  forall field lim s,
    In (field, lim) limits -> dict_find field bound = Some (VStr s) ->
    (Z.of_nat (String.length s) <= lim)%Z.
Proof.
  induction limits as [|[field lim] limits IH]; simpl.
  - split; [intros _ ? ? ? [] | reflexivity].
  - destruct (too_long bound (field, lim)) as [len|] eqn:E.
    + split; [discriminate|]. intros H.
      apply too_long_iff in E. destruct E as [s [Hf [Hlt _]]]. simpl in *.
      specialize (H field lim s (or_introl eq_refl) Hf). lia.
    + rewrite IH. split.
      * intros H f l s [[= <- <-] | HIn] Hf; [|eapply H; eassumption].
        destruct (Z.le_gt_cases (Z.of_nat (String.length s)) lim) as [Hle|Hgt]; [exact Hle|].
        assert (too_long bound (field, lim) = Some (String.length s)) as E'
            by (apply too_long_iff; exists s; simpl; auto).
        congruence.
      * intros H f l s HIn. apply H. right. exact HIn.
Qed.

Lemma too_long_message_contains (field : string) (len : nat) (lim : Z) :
  PyStr.contains field (too_long_message field len lim) = true
  /\ PyStr.contains (PyStr.of_Z (Z.of_nat len)) (too_long_message field len lim) = true
  /\ PyStr.contains (PyStr.of_Z lim) (too_long_message field len lim) = true.
Proof.
  unfold too_long_message. repeat split.
  - apply contains_append_l.
  - do 2 apply contains_append_r. apply contains_append_l.
  - do 5 apply contains_append_r. apply contains_append_l.
Qed.

End ValidatorFacts.

(* ================================================================== *)
(** * The binding *)
(* ================================================================== *)

Section BindingFacts.

Context {F : PyFloat}.
Implicit Types (ov : FunctionOverride) (sig : signature) (kwargs bound : dict).

Lemma fold_set_other (k : string) (l : list (string * value)) (d : dict) :
  ~ In k (map fst l) -> dict_find k (fold_left set_entry l d) = dict_find k d.
Proof.
  revert d. induction l as [|[k' v'] l IH]; intros d HNI; simpl; [reflexivity|].
  rewrite IH by (intros H; apply HNI; right; exact H).
  apply dict_find_set_neq. intros ->. apply HNI. left. reflexivity.
Qed.

Lemma fold_set_In (k : string) (v : value) (l : list (string * value)) (d : dict) :
  NoDup (map fst l) -> In (k, v) l ->
  dict_find k (fold_left set_entry l d) = Some v.
Proof.
  revert d. induction l as [|[k' v'] l IH]; intros d HND HIn; [destruct HIn|].
  simpl in HND. inversion HND as [|? ? HNI HND']; subst.
  destruct HIn as [[= -> ->] | HIn]; simpl.
  - rewrite fold_set_other by exact HNI. apply dict_find_set_eq.
  - apply IH; assumption.
Qed.

Lemma fold_set_mem (k : string) (l : list (string * value)) (d : dict) :
  dict_mem k (fold_left set_entry l d) = true <-> In k (map fst l) \/ dict_mem k d = true.
Proof.
  revert d. induction l as [|[k' v'] l IH]; intros d; simpl.
  - tauto.
  - rewrite IH. unfold set_entry at 1. simpl. rewrite dict_mem_set, orb_true_iff.
    rewrite String.eqb_eq. intuition congruence.
Qed.

Lemma seed_defaults_In ov (k : string) (v : value) :
  NoDup (map fst (defaults ov)) -> In (k, v) (defaults ov) ->
  dict_find k (seed_defaults ov) = Some v.
Proof. intros HND HIn. apply (fold_set_In k v _ [] HND HIn). Qed.

Lemma seed_defaults_mem ov (k : string) :
  dict_mem k (seed_defaults ov) = true <-> In k (map fst (defaults ov)).
Proof.
  unfold seed_defaults. fold set_entry. rewrite fold_set_mem.
  unfold dict_mem at 1. simpl. intuition discriminate.
Qed.

(** A parameter that is not supplied leaves its key as it was. *)
Lemma bind_params_other ov sig kwargs bound0 bound (k : string) :
  bind_params ov sig kwargs bound0 = Ok bound ->
  (forall p, In p sig -> param_name p = k -> dict_mem k kwargs = false) ->
  dict_find k bound = dict_find k bound0.
Proof.
  revert bound0. induction sig as [|p sig IH]; intros bound0 HB Hk; simpl in HB.
  - injection HB as <-. reflexivity.
  - destruct (dict_mem (param_name p) kwargs) eqn:Em.
    + destruct (_coerce_value (resolved_kind ov p) (dict_get (param_name p) kwargs))
        as [v|e]; simpl in HB; [|discriminate].
      rewrite (IH _ HB) by (intros q Hq; apply Hk; right; exact Hq).
      apply dict_find_set_neq. intros Heq.
      pose proof (Hk p (or_introl eq_refl) (eq_sym Heq)) as H0.
      rewrite Heq in H0. congruence.
    + apply (IH _ HB). intros q Hq. apply Hk. right. exact Hq.
Qed.

(** A supplied parameter is bound to its value coerced at the
    resolved kind. *)
Lemma bind_params_declared ov sig kwargs bound0 bound (p : parameter) :
  NoDup (map param_name sig) ->
  bind_params ov sig kwargs bound0 = Ok bound ->
  In p sig -> dict_mem (param_name p) kwargs = true ->
  exists v, _coerce_value (resolved_kind ov p) (dict_get (param_name p) kwargs) = Ok v
            /\ dict_find (param_name p) bound = Some v.
Proof.
  revert bound0. induction sig as [|q sig IH]; intros bound0 HND HB HIn Hm; [destruct HIn|].
  simpl in HND. inversion HND as [|? ? HNI HND']; subst.
  simpl in HB. destruct HIn as [-> | HIn].
  - rewrite Hm in HB.
    destruct (_coerce_value (resolved_kind ov p) (dict_get (param_name p) kwargs))
      as [v|e]; simpl in HB; [|discriminate].
    exists v. split; [reflexivity|].
    rewrite (bind_params_other _ _ _ _ _ _ HB).
    + apply dict_find_set_eq.
    + intros q Hq Hname. exfalso. apply HNI. rewrite <- Hname. apply in_map, Hq.
  - destruct (dict_mem (param_name q) kwargs).
    + destruct (_coerce_value (resolved_kind ov q) (dict_get (param_name q) kwargs))
        as [v|e]; simpl in HB; [|discriminate].
      apply (IH _ HND' HB HIn Hm).
    + apply (IH _ HND' HB HIn Hm).
Qed.

(** Binding never removes a key. *)
Lemma bind_params_mem ov sig kwargs bound0 bound (k : string) :
  bind_params ov sig kwargs bound0 = Ok bound ->
  dict_mem k bound = true <->
  dict_mem k bound0 = true
  \/ (In k (map param_name sig) /\ dict_mem k kwargs = true).
Proof.
  revert bound0. induction sig as [|q sig IH]; intros bound0 HB; simpl in HB.
  - injection HB as <-. simpl. tauto.
  - destruct (dict_mem (param_name q) kwargs) eqn:Em.
    + destruct (_coerce_value (resolved_kind ov q) (dict_get (param_name q) kwargs))
        as [v|e]; simpl in HB; [|discriminate].
      rewrite (IH _ HB), dict_mem_set, orb_true_iff, String.eqb_eq. simpl.
      split.
      * intros [[-> | H] | [H1 H2]]; [right; split; [left; reflexivity | exact Em] | left; exact H | right; split; [right; exact H1 | exact H2]].
      * intros [H | [[<- | H1] H2]]; [left; right; exact H | left; left; reflexivity | right; split; assumption].
    + rewrite (IH _ HB). simpl. split.
      * intros [H | [H1 H2]]; [left; exact H | right; split; [right; exact H1 | exact H2]].
      * intros [H | [[<- | H1] H2]]; [left; exact H | congruence | right; split; assumption].
Qed.


Lemma pass_through_find kwargs bound (k : string) :
  dict_find k (pass_through kwargs bound) =
    match dict_find k bound with
    | Some v => Some v
    | None => dict_find k kwargs
    end.
Proof.
  unfold pass_through. revert bound.
  induction kwargs as [|[k' v'] kwargs IH]; intros bound; simpl.
  - destruct (dict_find k bound); reflexivity.
  - rewrite IH. destruct (dict_mem k' bound) eqn:Em; simpl.
    + str_case k k'; [|reflexivity]. subst.
      apply dict_mem_find in Em. destruct Em as [v ->]. reflexivity.
    + rewrite dict_find_set. str_case k k'.
      * subst. apply dict_mem_false in Em. rewrite Em. reflexivity.
      * reflexivity.
Qed.

Lemma build_binding_inv ov sig kwargs bound :
  build_binding ov sig kwargs = Ok bound ->
  exists bound1, bind_params ov sig kwargs (seed_defaults ov) = Ok bound1
                 /\ bound = pass_through kwargs bound1.
Proof.
  unfold build_binding.
  destruct (bind_params ov sig kwargs (seed_defaults ov)) as [b1|e]; simpl;
    [|discriminate].
  intros [= <-]. eauto.
Qed.

End BindingFacts.

(* ================================================================== *)
(** * Validation of a call *)
(* ================================================================== *)

Section ValidationClaims.

Context {F : PyFloat}.
Variable func : dict -> result value.
Implicit Types (ov : FunctionOverride) (sig : signature) (raw bound : dict).

Lemma wrapper_outcome_bound ov sig raw bound :
  build_binding ov sig (resolve_args ov raw) = Ok bound ->
  wrapper_outcome ov sig raw = validate ov bound.
Proof. unfold wrapper_outcome. intros ->. reflexivity. Qed.

Lemma wrapper_returns ov sig raw (v : value) :
  wrapper_outcome ov sig raw = Returns v -> wrapper func ov sig raw = (Ok v, []).
Proof. unfold wrapper. intros ->. reflexivity. Qed.

(** C1.  When the binding of a call leaves a required field absent or
    bound to the empty string, list or mapping, the wrapper returns
    the structured error whose message lists the missing names,
    sorted and without duplicates, every such required field among
    them, and the domain function is not called. *)
Theorem missing_required_rejected ov sig raw bound (field : string) :
  build_binding ov sig (resolve_args ov raw) = Ok bound ->
  In field (required ov) ->
  absent_or_empty bound field ->
  exists names,
    wrapper func ov sig raw =
      (Ok (error_dict ("Missing required parameter(s): " ++ PyStr.join ", " names)), [])
    /\ Sorted str_le names /\ NoDup names
    /\ (forall r, In r (required ov) -> absent_or_empty bound r ->
         In r names
         /\ PyStr.contains r ("Missing required parameter(s): " ++ PyStr.join ", " names) = true)
    /\ (forall n, In n names <-> In n (missing ov bound)).
Proof.
  intros HB HIn HE.
  assert (In field (missing ov bound)) as HM.
  { apply In_missing. left. apply In_missing_required.
    split; [exact HIn | apply absent_or_empty_blank, HE]. }
  exists (PyStr.sorted_set (missing ov bound)). repeat split.
  - apply wrapper_returns. rewrite (wrapper_outcome_bound _ _ _ _ HB).
    apply validate_missing. intros Hnil. rewrite Hnil in HM. destruct HM.
  - apply sorted_set_Sorted.
  - apply sorted_set_NoDup.
  - apply In_sorted_set, In_missing. left. apply In_missing_required.
    split; [assumption | apply absent_or_empty_blank; assumption].
  - apply (missing_message_contains (missing ov bound) r).
    apply In_missing. left. apply In_missing_required.
    split; [assumption | apply absent_or_empty_blank; assumption].
  - apply In_sorted_set.
  - apply In_sorted_set.
Qed.

(** C2.  A rule of [required_if] adds its parameter to the missing
    names exactly when every condition of [when] equals the bound
    value and the bound value of the parameter is absent or empty;
    the three cases of the schedule rule; and the names of both checks
    are reported in one error. *)
Theorem conditional_requirements ov bound :
  (forall r : rule,
      rule_fires bound r = true <->
      (forall wkey wval, In (wkey, wval) (rule_when r) ->
                         py_eq (dict_get wkey bound) wval = true)
      /\ absent_or_blank bound (rule_param r))
  /\ (forall name,
        In name (missing_conditional ov bound) <->
        exists r, In r (required_if ov) /\ rule_param r = name /\ rule_fires bound r = true)
  /\ (dict_find "schedule" bound = Some (VBool false) ->
      rule_fires bound schedule_rule = false)
  /\ (dict_find "schedule" bound = Some (VBool true) ->
      dict_find "schedule_time" bound = None ->
      rule_fires bound schedule_rule = true)
  /\ (forall t, dict_find "schedule" bound = Some (VBool true) ->
                dict_find "schedule_time" bound = Some (VStr t) -> t <> "" ->
                rule_fires bound schedule_rule = false)
  /\ (missing ov bound <> [] ->
      validate ov bound = Returns (error_dict (missing_message (missing ov bound)))
      /\ forall name,
          In name (missing_required ov bound) \/ In name (missing_conditional ov bound) ->
          In name (PyStr.sorted_set (missing ov bound))
          /\ PyStr.contains name (missing_message (missing ov bound)) = true)
  /\ wrapper_outcome send_quick_bulk_sms_override send_quick_bulk_sms_signature
       (sms_call [("schedule", VBool false)])
     = Invokes [("schedule", VBool false); ("recipient", VList [VStr "+233200000000"]);
                ("sender_id", VStr "ACME"); ("message", VStr "Hi")]
  /\ wrapper_outcome send_quick_bulk_sms_override send_quick_bulk_sms_signature
       (sms_call [("schedule", VBool true)])
     = Returns (error_dict "Missing required parameter(s): schedule_time")
  /\ wrapper_outcome send_quick_bulk_sms_override send_quick_bulk_sms_signature
       (sms_call [("schedule", VBool true); ("schedule_time", VStr "2024-01-01 10:00")])
     = Invokes [("schedule", VBool true); ("recipient", VList [VStr "+233200000000"]);
                ("sender_id", VStr "ACME"); ("message", VStr "Hi");
                ("schedule_time", VStr "2024-01-01 10:00")]
  /\ wrapper_outcome send_quick_bulk_sms_override send_quick_bulk_sms_signature
       [("message", VStr "Hi"); ("schedule", VBool true)]
     = Returns (error_dict
                  "Missing required parameter(s): recipient, schedule_time, sender_id").
Proof.
  split; [|split; [|split; [|split; [|split; [|split; [|repeat split]]]]]].
  - intros r. rewrite rule_fires_iff, blank_field_iff. reflexivity.
  - apply In_missing_conditional.
  - intros Hs. unfold rule_fires, rule_meets. simpl.
    rewrite (dict_get_find _ _ _ Hs). reflexivity.
  - intros Hs Ht. unfold rule_fires, rule_meets. simpl.
    rewrite (dict_get_find _ _ _ Hs). unfold dict_get at 1. rewrite Ht. reflexivity.
  - intros t Hs Ht Hne. unfold rule_fires, rule_meets. simpl.
    rewrite (dict_get_find _ _ _ Hs), (dict_get_find _ _ _ Ht). simpl.
    apply String.eqb_neq in Hne. unfold is_blank. simpl. rewrite Hne. reflexivity.
  - intros HM. split; [apply validate_missing, HM|].
    intros name HIn. apply In_missing in HIn. split.
    + apply In_sorted_set, HIn.
    + apply missing_message_contains, HIn.
Qed.

(** C3.  Once the required checks pass, the wrapper returns a length
    error exactly when a field of [max_lengths] is bound to a string
    longer than its limit; the message holds the field name, the
    length and the limit, and the domain function is not called.  A
    message of 460 characters passes a limit of 460, one of 461 is
    rejected with 461 and 460 in the message.  When the required
    checks fail, their error is the one returned. *)
Theorem length_check ov sig raw bound :
  build_binding ov sig (resolve_args ov raw) = Ok bound ->
  (missing ov bound = [] ->
     ((exists field lim s,
          In (field, lim) (max_lengths ov) /\ dict_find field bound = Some (VStr s)
          /\ (lim < Z.of_nat (String.length s))%Z)
      <-> exists v, wrapper_outcome ov sig raw = Returns v)
     /\ (forall v, wrapper_outcome ov sig raw = Returns v ->
           wrapper func ov sig raw = (Ok v, [])
           /\ exists field lim s,
               In (field, lim) (max_lengths ov) /\ dict_find field bound = Some (VStr s)
               /\ (lim < Z.of_nat (String.length s))%Z
               /\ v = error_dict (too_long_message field (String.length s) lim)
               /\ PyStr.contains field (too_long_message field (String.length s) lim) = true
               /\ PyStr.contains (PyStr.of_Z (Z.of_nat (String.length s)))
                    (too_long_message field (String.length s) lim) = true
               /\ PyStr.contains (PyStr.of_Z lim)
                    (too_long_message field (String.length s) lim) = true))
  /\ (missing ov bound <> [] ->
      wrapper_outcome ov sig raw = Returns (error_dict (missing_message (missing ov bound))))
  /\ (forall s, max_lengths ov = [("message", 460%Z)] -> missing ov bound = [] ->
                dict_find "message" bound = Some (VStr s) ->
                (String.length s = 460 -> wrapper_outcome ov sig raw = Invokes bound)
                /\ (String.length s = 461 ->
                    exists msg, wrapper_outcome ov sig raw = Returns (error_dict msg)
                                /\ PyStr.contains "461" msg = true
                                /\ PyStr.contains "460" msg = true)).
Proof.
  intros HB. rewrite (wrapper_outcome_bound _ _ _ _ HB). repeat split.
  - intros [field [lim [s [HIn [Hf Hlt]]]]].
    rewrite (validate_no_missing _ _ H).
    destruct (check_lengths bound (max_lengths ov)) as [msg|] eqn:E; [eauto|].
    pose proof (proj1 (check_lengths_None _ _) E field lim s HIn Hf). lia.
  - intros [v Hv]. rewrite (validate_no_missing _ _ H) in Hv.
    destruct (check_lengths bound (max_lengths ov)) as [msg|] eqn:E; [|discriminate].
    destruct (check_lengths_Some _ _ _ E) as [f [l [s [HIn [Hf [Hlt _]]]]]].
    exists f, l, s. auto.
  - apply wrapper_returns. rewrite (wrapper_outcome_bound _ _ _ _ HB). exact H0.
  - rewrite (validate_no_missing _ _ H) in H0.
    destruct (check_lengths bound (max_lengths ov)) as [msg|] eqn:E; [|discriminate].
    injection H0 as <-.
    destruct (check_lengths_Some _ _ _ E) as [f [l [s [HIn [Hf [Hlt ->]]]]]].
    exists f, l, s. pose proof (too_long_message_contains f (String.length s) l). tauto.
  - apply validate_missing.
  - intros Hlen. rewrite (validate_no_missing _ _ H0), H.
    assert (check_lengths bound [("message", 460%Z)] = None) as ->; [|reflexivity].
    apply check_lengths_None. intros f l s' [[= <- <-] | []] Hf.
    rewrite H1 in Hf. injection Hf as <-. lia.
  - intros Hlen. rewrite (validate_no_missing _ _ H0), H.
    assert (too_long bound ("message", 460%Z) = Some 461) as E.
    { apply too_long_iff. exists s. simpl. rewrite Hlen.
      split; [exact H1 | split; [lia | reflexivity]]. }
    cbn [check_lengths]. rewrite E.
    eexists. split; [reflexivity|]. split; reflexivity.
Qed.





End ValidationClaims.

(* ================================================================== *)
(** * Envelope and binding *)
(* ================================================================== *)

Section EnvelopeClaim.

Context {F : PyFloat}.
Variable func : dict -> result value.
Implicit Types (ov : FunctionOverride) (sig : signature) (raw kwargs bound m : dict).

Lemma unwrap_envelope_inner m : unwrap_envelope [("kwargs", VDict m)] = m.
Proof. reflexivity. Qed.

Lemma unwrap_envelope_plain raw : is_envelope raw = false -> unwrap_envelope raw = raw.
Proof. unfold unwrap_envelope. intros ->. reflexivity. Qed.

(** C5, as amended.  A mapping under the single key [kwargs] gives the
    same result as the mapping itself, provided the mapping is not an
    envelope in turn: the wrapper unwraps one level only, and treats
    what it finds there as the arguments.  Arguments with another
    number of keys, with another key, or whose [kwargs] value is not a
    mapping are left as they are. *)
Theorem envelope_unwrapped_once ov sig m :
  is_envelope m = false ->
  wrapper func ov sig [("kwargs", VDict m)] = wrapper func ov sig m
  /\ (forall inner, resolve_args ov [("kwargs", VDict inner)]
                    = apply_aliases (aliases ov) (normalize inner))
  /\ (forall raw, List.length raw <> 1 -> unwrap_envelope raw = raw)
  /\ (forall k v, k <> "kwargs" \/ is_dict v = false ->
                  unwrap_envelope [(k, v)] = [(k, v)]).
Proof.
  intros Hm. repeat split.
  - unfold wrapper, wrapper_outcome, resolve_args.
    rewrite unwrap_envelope_inner, (unwrap_envelope_plain m Hm). reflexivity.
  - intros raw Hlen. apply unwrap_envelope_plain. unfold is_envelope.
    apply Nat.eqb_neq in Hlen. rewrite Hlen. reflexivity.
  - intros k v H. apply unwrap_envelope_plain. unfold is_envelope, dict_mem, dict_get.
    cbn [dict_find]. str_case "kwargs" k.
    + destruct H as [H | H]; [congruence | rewrite H; reflexivity].
    + reflexivity.
Qed.

End EnvelopeClaim.

Section BindingClaim.

Context {F : PyFloat}.
Implicit Types (ov : FunctionOverride) (sig : signature) (raw kwargs bound m : dict).

(** C8, as amended.  The binding starts from the defaults; a supplied
    value of a declared parameter is coerced at the resolved kind and
    replaces the default; a default that no supplied declared
    parameter replaces stays, also when the caller supplies that key;
    every other supplied key is passed through unchanged; and the
    binding holds no further key. *)
Theorem binding_construction ov sig kwargs bound :
  NoDup (map param_name sig) ->
  NoDup (map fst (defaults ov)) ->
  build_binding ov sig kwargs = Ok bound ->
  (forall k v, In (k, v) (defaults ov) -> dict_find k (seed_defaults ov) = Some v)
  /\ (forall p, In p sig -> dict_mem (param_name p) kwargs = true ->
        exists v, _coerce_value (resolved_kind ov p) (dict_get (param_name p) kwargs) = Ok v
                  /\ dict_find (param_name p) bound = Some v)
  /\ (forall k v, In (k, v) (defaults ov) ->
        ~ (In k (map param_name sig) /\ dict_mem k kwargs = true) ->
        dict_find k bound = Some v)
  /\ (forall k, dict_mem k kwargs = true -> ~ In k (map param_name sig) ->
        ~ In k (map fst (defaults ov)) ->
        dict_find k bound = dict_find k kwargs)
  /\ (forall k, dict_mem k bound = true ->
        In k (map fst (defaults ov)) \/ dict_mem k kwargs = true).
Proof.
  intros HNs HNd HB.
  destruct (build_binding_inv _ _ _ _ HB) as [bound1 [HB1 ->]].
  assert (forall k, ~ (In k (map param_name sig) /\ dict_mem k kwargs = true) ->
                    dict_find k bound1 = dict_find k (seed_defaults ov)) as Hother.
  { intros k Hk. apply (bind_params_other _ _ _ _ _ _ HB1).
    intros p HIn Hname. destruct (dict_mem k kwargs) eqn:E; [|reflexivity].
    exfalso. apply Hk. split; [rewrite <- Hname; apply in_map, HIn | reflexivity]. }
  repeat split.
  - intros k v HIn. apply seed_defaults_In; assumption.
  - intros p HIn Hm.
    destruct (bind_params_declared _ _ _ _ _ _ HNs HB1 HIn Hm) as [v [Hc Hf]].
    exists v. split; [exact Hc|]. rewrite pass_through_find, Hf. reflexivity.
  - intros k v HIn Hk.
    rewrite pass_through_find, (Hother k Hk), (seed_defaults_In _ _ _ HNd HIn).
    reflexivity.
  - intros k Hm Hs Hd. rewrite pass_through_find, Hother by tauto.
    destruct (dict_find k (seed_defaults ov)) eqn:E; [|reflexivity].
    exfalso. apply Hd, seed_defaults_mem, dict_mem_find. eauto.
  - intros k Hm. apply dict_mem_find in Hm. destruct Hm as [v Hv].
    rewrite pass_through_find in Hv.
    destruct (dict_find k bound1) eqn:E.
    + assert (dict_mem k bound1 = true) as Hm1 by (apply dict_mem_find; eauto).
      apply (bind_params_mem _ _ _ _ _ k HB1) in Hm1.
      destruct Hm1 as [H | [_ H]]; [left; apply seed_defaults_mem, H | right; exact H].
    + right. apply dict_mem_find. eauto.
Qed.

End BindingClaim.

(* ================================================================== *)
(** * The normalizer *)
(* ================================================================== *)

Lemma str_in_iff (s : string) (l : list string) : str_in s l = true <-> In s l.
Proof.
  unfold str_in. rewrite existsb_exists. split.
  - intros [x [HIn He]]. apply String.eqb_eq in He. subst. exact HIn.
  - intros HIn. exists s. split; [exact HIn | apply String.eqb_refl].
Qed.

Lemma str_in_false (s : string) (l : list string) : str_in s l = false <-> ~ In s l.
Proof.
  rewrite <- str_in_iff. destruct (str_in s l); split; congruence.
Qed.

Lemma canonical_key_spec (key : string) :
  (~ In key variant_keys /\ canonical_key key = key)
  \/ (In key variant_keys /\ In (canonical_key key) canonical_targets
      /\ canonical_key key <> key).
Proof.
  destruct (str_in key variant_keys) eqn:E.
  - right. apply str_in_iff in E. split; [exact E|].
    simpl in E.
    repeat (destruct E as [<- | E]; [split; [simpl; tauto | discriminate]|]).
    destruct E.
  - left. split; [apply str_in_false, E|].
    unfold str_in, variant_keys in E. cbn [existsb] in E.
    repeat (apply orb_false_iff in E; destruct E as [?E E]).
    unfold canonical_key, str_in. cbn [existsb].
    rewrite E0, E1, E2, E3, E4, E5, E6. reflexivity.
Qed.



Section NormalizerFacts.

Context {F : PyFloat}.
Implicit Types (kwargs m : dict) (k key : string) (v : value).

(** ** Key rewrites *)

Lemma collect_rewrites_fold kwargs :
  collect_rewrites kwargs = fold_left (rewrite_step kwargs) kwargs [].
Proof. reflexivity. Qed.

(** Every key of [normalized] is the canonical spelling of an entry
    and is absent from the arguments. *)
Lemma rewrite_fold_mem kwargs (l : list (string * value)) (acc : dict) k :
  dict_mem k (fold_left (rewrite_step kwargs) l acc) = true <->
  dict_mem k acc = true
  \/ (dict_mem k kwargs = false /\ exists key v, In (key, v) l /\ canonical_key key = k).
Proof.
  revert acc. induction l as [|[key v] l IH]; intros acc; simpl.
  - split; [auto | intros [H | [_ [? [? [[] _]]]]]; exact H].
  - rewrite IH. unfold rewrite_step. simpl.
    destruct (dict_mem (canonical_key key) kwargs) eqn:Em; simpl.
    + split.
      * intros [H | [Hk [key' [v' [HIn Hc]]]]]; [left; exact H|].
        right. split; [exact Hk|]. exists key', v'. auto.
      * intros [H | [Hk [key' [v' [[[= <- <-] | HIn] Hc]]]]]; [left; exact H | congruence |].
        right. split; [exact Hk|]. exists key', v'. auto.
    + rewrite dict_mem_set, orb_true_iff, String.eqb_eq. split.
      * intros [[-> | H] | [Hk [key' [v' [HIn Hc]]]]].
        -- right. split; [exact Em|]. exists key, v. auto.
        -- left. exact H.
        -- right. split; [exact Hk|]. exists key', v'. auto.
      * intros [H | [Hk [key' [v' [[[= <- <-] | HIn] Hc]]]]].
        -- left. right. exact H.
        -- left. left. symmetry. exact Hc.
        -- right. split; [exact Hk|]. exists key', v'. auto.
Qed.

Lemma collect_rewrites_mem kwargs k :
  dict_mem k (collect_rewrites kwargs) = true <->
  dict_mem k kwargs = false /\ exists key v, In (key, v) kwargs /\ canonical_key key = k.
Proof.
  rewrite collect_rewrites_fold, rewrite_fold_mem. unfold dict_mem at 1. simpl.
  intuition discriminate.
Qed.

Lemma dict_mem_keys k (d : dict) : dict_mem k d = true <-> In k (map fst d).
Proof.
  split.
  - intros H. apply dict_mem_find in H. destruct H as [v H].
    apply dict_find_In in H. apply (in_map fst) in H. exact H.
  - intros H. apply in_map_iff in H. destruct H as [[k' v] [<- H]].
    apply (In_dict_mem _ _ _ H).
Qed.

Lemma dict_update_find_old (d e : dict) k :
  ~ In k (map fst e) -> dict_find k (dict_update d e) = dict_find k d.
Proof. intros H. apply (fold_set_other k e d H). Qed.


(** The rewrite step never touches an entry already there. *)
Lemma rewrite_keys_find_old kwargs k :
  dict_mem k kwargs = true -> dict_find k (rewrite_keys kwargs) = dict_find k kwargs.
Proof.
  intros Hm. apply dict_update_find_old. rewrite <- dict_mem_keys, collect_rewrites_mem.
  intros [H _]. congruence.
Qed.

(** Only canonical targets are added. *)
Lemma rewrite_keys_find_other kwargs k :
  ~ In k canonical_targets -> dict_find k (rewrite_keys kwargs) = dict_find k kwargs.
Proof.
  intros Hk. apply dict_update_find_old. rewrite <- dict_mem_keys, collect_rewrites_mem.
  intros [Hm [key [v [HIn Hc]]]].
  destruct (canonical_key_spec key) as [[_ H] | [_ [H _]]].
  - rewrite H in Hc. subst. rewrite (In_dict_mem _ _ _ HIn) in Hm. discriminate.
  - rewrite Hc in H. contradiction.
Qed.






End NormalizerFacts.

Section NameAndContacts.

Context {F : PyFloat}.
Implicit Types (kwargs m : dict) (k key : string) (v : value).

Lemma find_eq_mem_eq (d e : dict) k :
  dict_find k d = dict_find k e -> dict_mem k d = dict_mem k e.
Proof. unfold dict_mem. intros ->. reflexivity. Qed.

(** ** Name expansion *)

Lemma expand_name_find_other kwargs k :
  k <> "first_name" -> k <> "last_name" ->
  dict_find k (expand_name kwargs) = dict_find k kwargs.
Proof.
  intros H1 H2. unfold expand_name.
  repeat match goal with
         | |- context [if ?c then _ else _] => destruct c
         end;
    rewrite ?dict_find_set_neq by assumption; reflexivity.
Qed.

(** Name expansion never touches an entry already there. *)
Lemma expand_name_find_old kwargs k :
  dict_mem k kwargs = true -> dict_find k (expand_name kwargs) = dict_find k kwargs.
Proof.
  intros Hm. unfold expand_name.
  destruct (py_truthy _ && (negb (dict_mem "first_name" kwargs)
                            && negb (dict_mem "last_name" kwargs))) eqn:G;
    [|reflexivity].
  apply andb_true_iff in G. destruct G as [_ G].
  apply andb_true_iff in G. destruct G as [G1 G2].
  apply negb_true_iff in G1, G2.
  assert (k <> "first_name") by (intros ->; congruence).
  assert (k <> "last_name") by (intros ->; congruence).
  repeat match goal with
         | |- context [if ?c then _ else _] => destruct c
         end;
    rewrite ?dict_find_set_neq by assumption; reflexivity.
Qed.

(** ** Contacts folding *)

Lemma fold_contacts_find_other kwargs k :
  k <> "phone" -> dict_find k (fold_contacts kwargs) = dict_find k kwargs.
Proof.
  intros H. unfold fold_contacts.
  destruct (dict_mem "contacts" kwargs && negb (dict_mem "phone" kwargs)); [|reflexivity].
  destruct (dict_get "contacts" kwargs); try reflexivity.
  destruct (first_contact l); [|reflexivity].
  apply dict_find_set_neq, H.
Qed.

Lemma fold_contacts_find_old kwargs k :
  dict_mem k kwargs = true -> dict_find k (fold_contacts kwargs) = dict_find k kwargs.
Proof.
  intros Hm. unfold fold_contacts.
  destruct (dict_mem "contacts" kwargs && negb (dict_mem "phone" kwargs)) eqn:G;
    [|reflexivity].
  apply andb_true_iff in G. destruct G as [_ G]. apply negb_true_iff in G.
  destruct (dict_get "contacts" kwargs); try reflexivity.
  destruct (first_contact l); [|reflexivity].
  apply dict_find_set_neq. intros ->. congruence.
Qed.

(** ** The normalizer keeps what it finds *)

Lemma normalize_find_old kwargs k :
  dict_mem k kwargs = true -> dict_find k (normalize kwargs) = dict_find k kwargs.
Proof.
  intros Hm. unfold normalize.
  pose proof (rewrite_keys_find_old kwargs k Hm) as H1.
  pose proof (find_eq_mem_eq _ _ _ H1) as M1. rewrite Hm in M1.
  pose proof (expand_name_find_old _ k M1) as H2.
  pose proof (find_eq_mem_eq _ _ _ H2) as M2. rewrite M1 in M2.
  rewrite (fold_contacts_find_old _ k M2), H2, H1. reflexivity.
Qed.

(** ** Tokens *)

Lemma string_of_rev_cons (c : ascii) (cur : list ascii) :
  string_of_list_ascii (List.rev (c :: cur)) <> "".
Proof.
  simpl. destruct (List.rev cur) as [|d l]; simpl; discriminate.
Qed.

Lemma split_ws_aux_nonempty (cur : list ascii) (s : string) :
  Forall (fun t => t <> "") (PyStr.split_ws_aux cur s).
Proof.
  revert cur. induction s as [|c s IH]; intros cur; simpl.
  - destruct cur as [|d cur]; [constructor|].
    constructor; [apply string_of_rev_cons | constructor].
  - destruct (PyStr.is_space c); [|apply IH].
    destruct cur as [|d cur]; [apply IH|].
    constructor; [apply string_of_rev_cons | apply IH].
Qed.

Lemma filter_nonempty_tokens (s : string) :
  filter (fun p => negb (String.eqb p "")) (PyStr.split_ws s) = PyStr.split_ws s.
Proof.
  unfold PyStr.split_ws. pose proof (split_ws_aux_nonempty [] s) as H.
  induction H as [|t l Ht _ IH]; simpl; [reflexivity|].
  apply String.eqb_neq in Ht. rewrite Ht. simpl. rewrite IH. reflexivity.
Qed.

Lemma name_tokens_str (s : string) :
  name_tokens (VStr s) = PyStr.split_ws (PyStr.strip s).
Proof.
  unfold name_tokens. simpl. str_case s ""; [subst; reflexivity | reflexivity].
Qed.

(** C6.  With [full_name] (or, without it, [name]) present and holding
    a string, and neither [first_name] nor [last_name] present, the
    normalizer splits the trimmed string on white space: no token, no
    expansion; one token, [first_name] only; two or more, [first_name]
    is all but the last token joined by one space and [last_name] the
    last. *)
Theorem name_split kwargs (s : string) :
  name_source kwargs (VStr s) ->
  dict_mem "first_name" kwargs = false ->
  dict_mem "last_name" kwargs = false ->
  name_expansion (PyStr.split_ws (PyStr.strip s)) (normalize kwargs)
  /\ normalize [("full_name", VStr "John")]
     = [("full_name", VStr "John"); ("first_name", VStr "John")]
  /\ normalize [("full_name", VStr "John Paul Smith")]
     = [("full_name", VStr "John Paul Smith"); ("first_name", VStr "John Paul");
        ("last_name", VStr "Smith")].
Proof.
  intros Hsrc Hf Hl. split; [|split; reflexivity].
  rewrite <- name_tokens_str. set (v := VStr s) in *.
  unfold name_expansion, normalize.
  assert (forall k, k <> "phone" ->
                    dict_find k (fold_contacts (expand_name (rewrite_keys kwargs)))
                    = dict_find k (expand_name (rewrite_keys kwargs))) as Hfold
      by (intros k Hk; apply fold_contacts_find_other, Hk).
  rewrite !Hfold by discriminate. clear Hfold.
  set (m1 := rewrite_keys kwargs).
  assert (forall k, ~ In k canonical_targets -> dict_find k m1 = dict_find k kwargs) as Hk
      by (intros k Hk; apply rewrite_keys_find_other, Hk).
  assert (dict_mem "first_name" m1 = false) as Hf1.
  { rewrite (find_eq_mem_eq m1 kwargs); [exact Hf | apply Hk; simpl; intuition discriminate]. }
  assert (dict_mem "last_name" m1 = false) as Hl1.
  { rewrite (find_eq_mem_eq m1 kwargs); [exact Hl | apply Hk; simpl; intuition discriminate]. }
  assert ((if dict_mem "full_name" m1 then dict_get "full_name" m1
           else if dict_mem "name" m1 then dict_get "name" m1 else VNone) = v) as Hv.
  { unfold dict_mem, dict_get.
    rewrite !Hk by (simpl; intuition discriminate).
    destruct Hsrc as [-> | [-> ->]]; reflexivity. }
  unfold expand_name. rewrite Hv, Hf1, Hl1. cbn [negb andb].
  rewrite filter_nonempty_tokens, andb_true_r.
  apply dict_mem_false in Hf1, Hl1.
  unfold name_tokens. destruct (py_truthy v); [|auto].
  destruct (PyStr.split_ws (PyStr.strip (py_str v))) as [|t [|t' rest]].
  - simpl. auto.
  - cbn [List.length Nat.eqb hd]. rewrite dict_find_set_eq, dict_find_set_neq by discriminate.
    auto.
  - cbn [List.length Nat.eqb Nat.leb].
    rewrite dict_find_set_neq, !dict_find_set_eq by discriminate. auto.
Qed.

End NameAndContacts.

(* ================================================================== *)
(** * The string-list kind *)
(* ================================================================== *)

Section StripFacts.

Import PyStr.

Lemma string_of_list_app (l m : list ascii) :
  string_of_list_ascii (l ++ m) = string_of_list_ascii l ++ string_of_list_ascii m.
Proof. induction l as [|c l IH]; simpl; congruence. Qed.

Lemma rev_cons (c : ascii) (s : string) : rev (String c s) = rev s ++ String c "".
Proof. unfold rev. simpl. apply string_of_list_app. Qed.

Lemma rev_snoc (c : ascii) (s : string) : rev (s ++ String c "") = String c (rev s).
Proof.
  induction s as [|d s IH]; [reflexivity|].
  change ((String d s) ++ String c "") with (String d (s ++ String c "")).
  rewrite !rev_cons, IH. reflexivity.
Qed.

Lemma drop_while_snoc (p : ascii -> bool) (c : ascii) (s : string) :
  p c = false -> exists w, drop_while p (s ++ String c "") = w ++ String c "".
Proof.
  intros Hc. induction s as [|d s IH]; simpl.
  - rewrite Hc. exists "". reflexivity.
  - destruct (p d); [exact IH|]. exists (String d s). reflexivity.
Qed.

Lemma drop_while_fixed (p : ascii -> bool) (s : string) :
  match s with
  | String c _ => p c = false
  | EmptyString => True
  end -> drop_while p s = s.
Proof. destruct s as [|c s]; simpl; [reflexivity | intros ->; reflexivity]. Qed.

(** Stripping a stripped string changes nothing. *)
Lemma strip_by_idem (p : ascii -> bool) (s : string) :
  strip_by p (strip_by p s) = strip_by p s.
Proof.
  unfold strip_by at 1.
  assert (drop_while p (strip_by p s) = strip_by p s) as ->.
  { apply drop_while_fixed. unfold strip_by.
    pose proof (drop_while_head p s) as Hh.
    destruct (drop_while p s) as [|c u]; [exact I|].
    rewrite rev_cons. destruct (drop_while_snoc p c (rev u) Hh) as [w ->].
    rewrite rev_snoc. exact Hh. }
  rewrite (drop_while_fixed p (rev (strip_by p s))) by apply strip_by_last.
  apply rev_involutive.
Qed.

Lemma strip_idem (s : string) : strip (strip s) = strip s.
Proof. apply strip_by_idem. Qed.

End StripFacts.

Section StrListFacts.

Context {F : PyFloat}.

Lemma clean_items_strip (l : list string) :
  clean_items (map PyStr.strip l) = clean_items l.
Proof.
  unfold clean_items. induction l as [|x l IH]; [reflexivity|].
  cbn [map filter].
  assert (nonblank (PyStr.strip x) = nonblank x) as ->
      by (unfold nonblank; rewrite strip_idem; reflexivity).
  destruct (nonblank x); cbn [map]; rewrite IH, ?strip_idem; reflexivity.
Qed.

Lemma to_str_list_items (v : value) :
  v <> VNone -> _to_str_list v = map tidy (filter nonblank (str_list_items v)).
Proof.
  intros Hv. destruct v; try congruence; unfold _to_str_list, str_list_items;
    rewrite ?clean_items_strip; reflexivity.
Qed.

End StrListFacts.

(* ================================================================== *)
(** * The alias resolver *)
(* ================================================================== *)

Section AliasFacts.

Context {F : PyFloat}.
Implicit Types (m kwargs : dict) (k a c : string) (table : list (string * string)).

Lemma apply_alias_idle m pair : alias_fires m pair = false -> apply_alias m pair = m.
Proof. destruct pair as [a c]. unfold alias_fires, apply_alias. simpl. intros ->. reflexivity. Qed.

Lemma apply_alias_find m a c k :
  alias_fires m (a, c) = true ->
  dict_find k (apply_alias m (a, c)) =
    if String.eqb k c then Some (dict_get a m)
    else if String.eqb k a then None else dict_find k m.
Proof.
  unfold alias_fires, apply_alias. simpl. intros ->.
  rewrite dict_find_set, dict_find_remove. reflexivity.
Qed.

Lemma apply_alias_mem m a c k :
  dict_mem k (apply_alias m (a, c)) =
    if alias_fires m (a, c)
    then String.eqb k c || (negb (String.eqb k a) && dict_mem k m)
    else dict_mem k m.
Proof.
  destruct (alias_fires m (a, c)) eqn:E.
  - unfold dict_mem at 1. rewrite (apply_alias_find _ _ _ _ E). unfold dict_mem.
    destruct (String.eqb k c), (String.eqb k a); reflexivity.
  - rewrite (apply_alias_idle _ _ E). reflexivity.
Qed.

Lemma alias_fires_inv m a c :
  alias_fires m (a, c) = true -> dict_mem a m = true /\ dict_mem c m = false.
Proof.
  unfold alias_fires. simpl. intros H. apply andb_true_iff in H.
  destruct H as [H1 H2]. apply negb_true_iff in H2. auto.
Qed.

(** A key that is no alias of the table keeps its entry. *)
Lemma apply_aliases_find_keep table m k :
  ~ In k (map fst table) -> dict_mem k m = true ->
  dict_find k (apply_aliases table m) = dict_find k m.
Proof.
  unfold apply_aliases. revert m.
  induction table as [|[a c] table IH]; intros m HNI Hm; cbn [fold_left]; [reflexivity|].
  assert (k <> a) as Hka by (intros ->; apply HNI; left; reflexivity).
  assert (dict_find k (apply_alias m (a, c)) = dict_find k m) as Hstep.
  { destruct (alias_fires m (a, c)) eqn:E.
    - rewrite (apply_alias_find _ _ _ _ E).
      destruct (alias_fires_inv _ _ _ E) as [_ Hc].
      str_case k c; [subst; congruence|].
      apply String.eqb_neq in Hka. rewrite Hka. reflexivity.
    - rewrite (apply_alias_idle _ _ E). reflexivity. }
  rewrite IH.
  - exact Hstep.
  - intros H. apply HNI. right. exact H.
  - rewrite (find_eq_mem_eq _ _ _ Hstep). exact Hm.
Qed.

(** A key stays as well when the table maps it only to keys that are
    present and are no alias themselves. *)
Lemma apply_aliases_find_guarded table m k :
  dict_mem k m = true ->
  (forall c, In (k, c) table -> dict_mem c m = true /\ ~ In c (map fst table)) ->
  dict_find k (apply_aliases table m) = dict_find k m.
Proof.
  unfold apply_aliases. revert m.
  induction table as [|[a c] table IH]; intros m Hm Hg; cbn [fold_left]; [reflexivity|].
  assert (dict_find k (apply_alias m (a, c)) = dict_find k m) as Hstep.
  { destruct (alias_fires m (a, c)) eqn:E; [|rewrite (apply_alias_idle _ _ E); reflexivity].
    destruct (alias_fires_inv _ _ _ E) as [_ Hc].
    rewrite (apply_alias_find _ _ _ _ E).
    str_case k c; [subst; congruence|].
    str_case k a; [|reflexivity].
    subst a. destruct (Hg c (or_introl eq_refl)) as [Hcm _]. congruence. }
  rewrite IH.
  - exact Hstep.
  - rewrite (find_eq_mem_eq _ _ _ Hstep). exact Hm.
  - intros c' HIn. destruct (Hg c' (or_intror HIn)) as [Hcm Hna]. split.
    + rewrite apply_alias_mem. destruct (alias_fires m (a, c)); [|exact Hcm].
      assert (c' <> a) as Hne by (intros ->; apply Hna; left; reflexivity).
      apply String.eqb_neq in Hne. rewrite Hne, Hcm. apply orb_true_r.
    + intros H. apply Hna. right. exact H.
Qed.

(** The resolver adds canonical keys of the table only. *)
Lemma apply_aliases_added table m k :
  dict_mem k (apply_aliases table m) = true ->
  dict_mem k m = true \/ In k (map snd table).
Proof.
  unfold apply_aliases. revert m.
  induction table as [|[a c] table IH]; intros m; cbn [fold_left map]; [auto|].
  intros H. destruct (IH _ H) as [H' | H']; [|right; right; exact H'].
  rewrite apply_alias_mem in H'. destruct (alias_fires m (a, c)); [|auto].
  apply orb_true_iff in H'. destruct H' as [H' | H'].
  - apply String.eqb_eq in H'. subst. right. left. reflexivity.
  - apply andb_true_iff in H'. destruct H' as [_ H']. auto.
Qed.


End AliasFacts.

Section PassThrough.

Context {F : PyFloat}.
Implicit Types (ov : FunctionOverride) (sig : signature) (raw m bound : dict).

Lemma validate_Invokes ov bound bound' :
  validate ov bound = Invokes bound' -> bound' = bound.
Proof.
  unfold validate. destruct (missing ov bound); [|discriminate].
  destruct (check_lengths bound (max_lengths ov)); [discriminate|].
  intros [= <-]. reflexivity.
Qed.

Lemma wrapper_outcome_Invokes ov sig raw bound :
  wrapper_outcome ov sig raw = Invokes bound ->
  build_binding ov sig (resolve_args ov raw) = Ok bound.
Proof.
  unfold wrapper_outcome.
  destruct (build_binding ov sig (resolve_args ov raw)) as [b|e]; [|discriminate].
  intros H. apply validate_Invokes in H. subst. reflexivity.
Qed.



End PassThrough.

(* ================================================================== *)
(** * Arguments the normalizer and the resolver leave alone *)
(* ================================================================== *)

Section Settled.

Context {F : PyFloat}.
Implicit Types (m kwargs : dict) (k a c : string) (table : list (string * string)).

(** ** When each step of the normalizer changes its argument *)












(** ** Arguments closed under canonical spelling *)





(** ** Settled arguments *)





End Settled.

Section Idempotence.

Context {F : PyFloat}.
Implicit Types (m kwargs : dict) (k a c : string) (table : list (string * string)).

Lemma apply_alias_find_other m a c k :
  k <> a -> k <> c -> dict_find k (apply_alias m (a, c)) = dict_find k m.
Proof.
  intros Ha Hc. destruct (alias_fires m (a, c)) eqn:E.
  - rewrite (apply_alias_find _ _ _ _ E).
    apply String.eqb_neq in Ha, Hc. rewrite Ha, Hc. reflexivity.
  - rewrite (apply_alias_idle _ _ E). reflexivity.
Qed.





Lemma alias_fires_false m a c :
  alias_fires m (a, c) = false <-> dict_mem a m = false \/ dict_mem c m = true.
Proof.
  unfold alias_fires. simpl.
  destruct (dict_mem a m), (dict_mem c m); simpl; intuition congruence.
Qed.

(** After the resolver has run over a table without chains, no pair
    of the table applies any more. *)
Lemma apply_aliases_resolved (full suffix : list (string * string)) m :
  (forall c, In c (map snd full) -> ~ In c (map fst full)) ->
  incl suffix full ->
  forall a c, In (a, c) suffix -> alias_fires (fold_left apply_alias suffix m) (a, c) = false.
Proof.
  intros Hchain. revert m.
  induction suffix as [|[a0 c0] rest IH]; intros m Hincl a c HIn; [destruct HIn|].
  cbn [fold_left].
  assert (incl rest full) as Hrest by (intros x Hx; apply Hincl; right; exact Hx).
  destruct HIn as [[= -> ->] | HIn]; [|apply (IH _ Hrest _ _ HIn)].
  assert (In (a, c) full) as Hfull by (apply Hincl; left; reflexivity).
  assert (In a (map fst full)) as Hafull by (apply (in_map fst) in Hfull; exact Hfull).
  assert (In c (map snd full)) as Hcfull by (apply (in_map snd) in Hfull; exact Hfull).
  assert (dict_mem a (apply_alias m (a, c)) = false
          \/ dict_mem c (apply_alias m (a, c)) = true) as Hstep.
  { destruct (alias_fires m (a, c)) eqn:E.
    - right. rewrite apply_alias_mem, E, String.eqb_refl. reflexivity.
    - rewrite (apply_alias_idle _ _ E). apply alias_fires_false, E. }
  apply alias_fires_false. destruct Hstep as [Hs | Hs].
  - left. destruct (dict_mem a (fold_left apply_alias rest (apply_alias m (a, c)))) eqn:E;
      [|reflexivity].
    destruct (apply_aliases_added rest _ a E) as [H | H]; [congruence|].
    exfalso. apply (Hchain a); [|exact Hafull].
    apply in_map_iff in H. destruct H as [x [Hx HIn]].
    apply in_map_iff. exists x. split; [exact Hx | apply Hrest, HIn].
  - right.
    rewrite (find_eq_mem_eq _ (apply_alias m (a, c)) c); [exact Hs|].
    apply (apply_aliases_find_keep rest); [|exact Hs].
    intros H. apply (Hchain c Hcfull).
    apply in_map_iff in H. destruct H as [x [Hx HIn]].
    apply in_map_iff. exists x. split; [exact Hx | apply Hrest, HIn].
Qed.




End Idempotence.

(* ================================================================== *)
(** * The claims on concrete calls *)
(* ================================================================== *)

#[local] Existing Instance NoFloat.

Ltac distinct_strings :=
  repeat (constructor; [simpl; intuition discriminate|]); constructor.

(** C1 on a call of [send_quick_bulk_sms] without recipient and with an
    empty message. *)
Lemma missing_required_rejected_witness :
  let ov := @send_quick_bulk_sms_override NoFloat in
  let sig := send_quick_bulk_sms_signature in
  let raw := [("sender_id", VStr "ACME"); ("message", VStr "")] in
  let bound := [("schedule", VBool false); ("sender_id", VStr "ACME"); ("message", VStr "")] in
  build_binding ov sig (resolve_args ov raw) = Ok bound
  /\ In "message" (required ov)
  /\ absent_or_empty bound "message"
  /\ exists names,
      wrapper echo ov sig raw =
        (Ok (error_dict ("Missing required parameter(s): " ++ PyStr.join ", " names)), [])
      /\ Sorted str_le names /\ NoDup names
      /\ (forall r, In r (required ov) -> absent_or_empty bound r ->
            In r names
            /\ PyStr.contains r ("Missing required parameter(s): " ++ PyStr.join ", " names) = true)
      /\ (forall n, In n names <-> In n (missing ov bound)).
Proof.
  intros ov sig raw bound.
  assert (build_binding ov sig (resolve_args ov raw) = Ok bound) as H1 by reflexivity.
  assert (In "message" (required ov)) as H2 by (simpl; auto).
  assert (absent_or_empty bound "message") as H3 by (right; left; reflexivity).
  split; [exact H1|]. split; [exact H2|]. split; [exact H3|].
  exact (missing_required_rejected echo ov sig raw bound "message" H1 H2 H3).
Defined.

(** C3 on a call of [send_quick_bulk_sms] with a message of 461
    characters. *)
Lemma length_check_witness :
  let ov := @send_quick_bulk_sms_override NoFloat in
  let sig := send_quick_bulk_sms_signature in
  let long := replicate "a" 461 in
  let raw := [("recipient", VList [VStr "+233200000000"]); ("sender_id", VStr "ACME");
              ("message", VStr long)] in
  let bound := [("schedule", VBool false); ("recipient", VList [VStr "+233200000000"]);
                ("sender_id", VStr "ACME"); ("message", VStr long)] in
  build_binding ov sig (resolve_args ov raw) = Ok bound
  /\ exists msg, wrapper_outcome ov sig raw = Returns (error_dict msg)
                 /\ PyStr.contains "461" msg = true /\ PyStr.contains "460" msg = true.
Proof.
  intros ov sig long raw bound.
  assert (build_binding ov sig (resolve_args ov raw) = Ok bound) as H1
      by (vm_compute; reflexivity).
  split; [exact H1|].
  refine (proj2 (proj2 (proj2 (length_check echo ov sig raw bound H1))
                   long eq_refl _ _) _).
  - vm_compute. reflexivity.
  - vm_compute. reflexivity.
  - vm_compute. reflexivity.
Defined.

(** C5 on the arguments [{a: 1}]. *)
Lemma envelope_unwrapped_once_witness :
  let m := [("a", @VInt NoFloat 1)] in
  is_envelope m = false
  /\ wrapper echo empty_override [] [("kwargs", VDict m)] = wrapper echo empty_override [] m.
Proof.
  intros m. split; [reflexivity|].
  exact (proj1 (envelope_unwrapped_once echo empty_override [] m eq_refl)).
Defined.

(** C5 as stated fails on an envelope inside an envelope: the wrapper
    unwraps the outer one and passes the inner one on as the argument
    [kwargs], where the inner one alone would be unwrapped. *)
Lemma envelope_unwrap_counterexample :
  let m := [("kwargs", VDict [("a", @VInt NoFloat 1)])] in
  wrapper echo empty_override [] [("kwargs", VDict m)]
  = (Ok (VDict [("kwargs", VDict [("a", VInt 1)])]), [[("kwargs", VDict [("a", VInt 1)])]])
  /\ wrapper echo empty_override [] m = (Ok (VDict [("a", VInt 1)]), [[("a", VInt 1)]])
  /\ wrapper echo empty_override [] [("kwargs", VDict m)] <> wrapper echo empty_override [] m.
Proof.
  intros m. split; [reflexivity|]. split; [reflexivity|]. discriminate.
Qed.

(** C6 on [{full_name: John Paul Smith}] and on [{full_name: John}]. *)
Lemma name_split_witness :
  let three := [("full_name", @VStr NoFloat "John Paul Smith")] in
  let one := [("full_name", @VStr NoFloat "John")] in
  (name_source three (VStr "John Paul Smith")
   /\ dict_mem "first_name" three = false /\ dict_mem "last_name" three = false
   /\ dict_find "first_name" (normalize three) = Some (VStr "John Paul")
   /\ dict_find "last_name" (normalize three) = Some (VStr "Smith"))
  /\ (name_source one (VStr "John")
      /\ dict_mem "first_name" one = false /\ dict_mem "last_name" one = false
      /\ dict_find "first_name" (normalize one) = Some (VStr "John")
      /\ dict_find "last_name" (normalize one) = None).
Proof.
  intros three one. split.
  - assert (name_source three (VStr "John Paul Smith")) as H by (left; reflexivity).
    split; [exact H|]. split; [reflexivity|]. split; [reflexivity|].
    exact (proj1 (name_split three "John Paul Smith" H eq_refl eq_refl)).
  - assert (name_source one (VStr "John")) as H by (left; reflexivity).
    split; [exact H|]. split; [reflexivity|]. split; [reflexivity|].
    exact (proj1 (name_split one "John" H eq_refl eq_refl)).
Defined.

(** C7.  An item made of quote characters alone.  Its trimmed form is
    not empty, so the filter of lines 40 and 45 keeps it, and the
    strip of the quotes that follows leaves the empty string in the
    result, where the claim has every empty element dropped.  The list
    that holds the empty string is not blank: as a [recipient] it
    passes the required check, and [send_quick_bulk_sms] is called
    with it. *)
Theorem str_list_keeps_empty_item :
  let ov := @send_quick_bulk_sms_override NoFloat in
  let raw := [("recipient", VStr "['']"); ("sender_id", VStr "ACME");
              ("message", VStr "Hi")] in
  _to_str_list (VList [VStr "''"]) = [""]
  /\ _to_str_list (VStr "['']") = [""]
  /\ claimed_str_list (VList [VStr "''"]) = []
  /\ claimed_str_list (VStr "['']") = []
  /\ wrapper_outcome ov send_quick_bulk_sms_signature raw
     = Invokes [("schedule", VBool false); ("recipient", VList [VStr ""]);
                ("sender_id", VStr "ACME"); ("message", VStr "Hi")].
Proof.
  intros ov raw. repeat split; reflexivity.
Qed.

(** C8 on a call of [send_quick_bulk_sms] with a key the function does
    not declare. *)
Lemma binding_construction_witness :
  let ov := @send_quick_bulk_sms_override NoFloat in
  let sig := send_quick_bulk_sms_signature in
  let kwargs := [("recipient", VStr "a, b"); ("sender_id", VStr "ACME");
                 ("message", VStr "Hi"); ("trace", VInt 7)] in
  let bound := [("schedule", VBool false); ("recipient", str_list ["a"; "b"]);
                ("sender_id", VStr "ACME"); ("message", VStr "Hi"); ("trace", VInt 7)] in
  NoDup (map param_name sig) /\ NoDup (map fst (defaults ov))
  /\ build_binding ov sig kwargs = Ok bound
  /\ dict_find "schedule" bound = Some (VBool false)
  /\ dict_find "trace" bound = dict_find "trace" kwargs
  /\ exists v, _coerce_value "list[str]" (VStr "a, b") = Ok v
               /\ dict_find "recipient" bound = Some v.
Proof.
  intros ov sig kwargs bound.
  assert (NoDup (map param_name sig)) as H1 by distinct_strings.
  assert (NoDup (map fst (defaults ov))) as H2 by distinct_strings.
  assert (build_binding ov sig kwargs = Ok bound) as H3 by reflexivity.
  split; [exact H1|]. split; [exact H2|]. split; [exact H3|].
  destruct (binding_construction ov sig kwargs bound H1 H2 H3) as [_ [Hp [Hd [Ht _]]]].
  split; [|split].
  - apply (Hd "schedule" (VBool false)); [left; reflexivity|].
    intros [_ Hm]. discriminate Hm.
  - apply (Ht "trace"); [reflexivity | simpl; intuition discriminate
                         | simpl; intuition discriminate].
  - exact (Hp {| param_name := "recipient"; param_annotation := AnnEmpty;
                 param_has_default := false |} (or_introl eq_refl) eq_refl).
Defined.

(** C8 as stated fails when the caller supplies a key that is a default
    and not a declared parameter: the default stays and the supplied
    value is dropped. *)
Lemma binding_construction_counterexample :
  let ov := @send_quick_bulk_sms_override NoFloat in
  let sig := [{| param_name := "recipient"; param_annotation := AnnList;
                 param_has_default := false |}] in
  let kwargs := [("recipient", VList [VStr "+233200000000"]); ("schedule", VBool true)] in
  build_binding ov sig kwargs
  = Ok [("schedule", VBool false); ("recipient", VList [VStr "+233200000000"])]
  /\ ~ In "schedule" (map param_name sig)
  /\ dict_find "schedule" kwargs = Some (VBool true)
  /\ ~ (forall bound, build_binding ov sig kwargs = Ok bound ->
                      dict_find "schedule" bound = dict_find "schedule" kwargs).
Proof.
  intros ov sig kwargs. split; [reflexivity|]. split; [simpl; intuition discriminate|].
  split; [reflexivity|].
  intros H. specialize (H _ eq_refl). discriminate H.
Qed.



(** C2 on the binding [{schedule: True}] under the override of
    [send_quick_bulk_sms]: the schedule rule fires and the error names
    the conditional and the plain missing fields together. *)
Lemma conditional_requirements_witness :
  let ov := @send_quick_bulk_sms_override NoFloat in
  let bound := [("schedule", @VBool NoFloat true); ("message", VStr "Hi")] in
  rule_fires bound schedule_rule = true
  /\ In "schedule_time" (missing_conditional ov bound)
  /\ validate ov bound
     = Returns (error_dict "Missing required parameter(s): recipient, schedule_time, sender_id").
Proof.
  intros ov bound.
  destruct (conditional_requirements ov bound) as [_ [Hc [_ [Hfire [_ [Hrep _]]]]]].
  assert (rule_fires bound schedule_rule = true) as H1 by (apply Hfire; reflexivity).
  split; [exact H1|]. split.
  - apply Hc. exists schedule_rule. split; [left; reflexivity|]. split; [reflexivity | exact H1].
  - apply Hrep. discriminate.
Defined.


(* ================================================================== *)
(** * Checks of the embedding on concrete values *)
(* ================================================================== *)

Example strip_ex : PyStr.strip "  a b  " = "a b".
Proof. reflexivity. Qed.

Example split_on_ex : PyStr.split_on "," "a,,b" = ["a"; ""; "b"].
Proof. reflexivity. Qed.

Example split_ws_ex : PyStr.split_ws " John  Paul Smith " = ["John"; "Paul"; "Smith"].
Proof. reflexivity. Qed.

Example of_Z_ex : PyStr.of_Z (-460) = "-460" /\ PyStr.of_Z 0 = "0".
Proof. split; reflexivity. Qed.

Example sorted_set_ex : PyStr.sorted_set ["b"; "a"; "b"; "B"] = ["B"; "a"; "b"].
Proof. reflexivity. Qed.

Example int_of_str_ex :
  map Literal.int_of_str
      ["1_000"; "1__0"; "_1"; "1_"; "+1"; "+ 1"; ""; "+"; "-0"; "007"; "1.0"; "abc"]
  = [Ok 1000; Exc ValueError; Exc ValueError; Exc ValueError; Ok 1; Exc ValueError;
     Exc ValueError; Exc ValueError; Ok 0; Ok 7; Exc ValueError; Exc ValueError]%Z.
Proof. reflexivity. Qed.

Example is_float_literal_ex :
  map Literal.is_float_literal
      ["1."; ".5"; "1e5"; "1E+5"; "1_0.0_1"; "inf"; "-Infinity"; "nan"; "+nan";
       "1e1_0"; "iNf"; "1.e5"; "+.5e-3";
       "1e"; "."; "e5"; "1_e5"; "1._5"; "1_.5"; "1e_1"; "infinit"; "nan()"; "--1";
       "1e+"; ""; "+"; "1d5"; ".e5"; "1e5.0"; "abc"]
  = [true; true; true; true; true; true; true; true; true; true; true; true; true;
     false; false; false; false; false; false; false; false; false; false;
     false; false; false; false; false; false; false].
Proof. reflexivity. Qed.

Example py_str_ex :
  @py_str NoFloat (VList [VStr "a'b"; VInt (-3); VNone; VDict [("k", VBool true)]])
  = String "[" (String double_quote ("a'b" ++ String double_quote ", -3, None, {'k': True}]")).
Proof. reflexivity. Qed.

Example to_bool_ex :
  map (@_to_bool NoFloat) [VStr " YES "; VStr "0"; VStr "maybe"; VStr ""; VInt 0; VInt 2; VNone]
  = [true; false; true; false; false; true; false].
Proof. reflexivity. Qed.

(** The end-to-end scenario of the spec. *)
Example end_to_end_ex :
  @wrapper_outcome NoFloat (registered_override "send_quick_bulk_sms")
    send_quick_bulk_sms_signature
    [("recipients", VList [VStr "+233200000000"]); ("sender_id", VStr "ACME");
     ("message", VStr "Hi")]
  = Invokes [("schedule", VBool false); ("recipient", VList [VStr "+233200000000"]);
             ("sender_id", VStr "ACME"); ("message", VStr "Hi")].
Proof. reflexivity. Qed.

(** The fault of C4 is a [ValueError]. *)
Example coercion_fault_ex :
  @wrapper NoFloat echo empty_override
    [{| param_name := "count"; param_annotation := AnnInt; param_has_default := false |}]
    [("count", VStr "abc")]
  = (Exc ValueError, []).
Proof. reflexivity. Qed.

(** Two spellings of one canonical key: the later one gives the value. *)
Example two_spellings_ex :
  @normalize NoFloat [("phoneNumber", VStr "1"); ("phone_number", VStr "2")]
  = [("phoneNumber", VStr "1"); ("phone_number", VStr "2"); ("phone", VStr "2")].
Proof. reflexivity. Qed.

(* ================================================================== *)
(** * Further properties of the coercers *)
(* ================================================================== *)

Section CoercerProperties.

Context {F : PyFloat}.






End CoercerProperties.

(* ================================================================== *)
(** * When the wrapper raises *)
(* ================================================================== *)

Section RaiseProperties.

Context {F : PyFloat}.
Implicit Types (ov : FunctionOverride) (sig : signature) (raw kwargs bound : dict).













End RaiseProperties.


Section BoolProperties.

Context {F : PyFloat}.

(** X3.  A string coerces to [False] exactly when it is empty or its
    trimmed lower-case form is [false], [no], [n] or [0].  Every other
    string coerces to [True]: the words [true], [yes], [y] and [1], but
    also any unknown word and a string of white space alone. *)
Theorem to_bool_of_string (s : string) :
  (_to_bool (VStr s) = false <->
   s = "" \/ In (PyStr.lower (PyStr.strip s)) ["false"; "no"; "n"; "0"])
  /\ (In (PyStr.lower (PyStr.strip s)) ["true"; "yes"; "y"; "1"] -> _to_bool (VStr s) = true)
  /\ (s <> "" -> PyStr.strip s = "" -> _to_bool (VStr s) = true).
Proof.
  unfold _to_bool. set (w := PyStr.lower (PyStr.strip s)).
  assert (str_in w ["true"; "yes"; "y"; "1"] = true ->
          ~ In w ["false"; "no"; "n"; "0"] /\ s <> "") as Hdisj.
  { intros H. apply str_in_iff in H. simpl in H.
    destruct H as [H | [H | [H | [H | []]]]]; split;
      try (rewrite <- H; simpl; intuition discriminate);
      intros ->; subst w; discriminate H. }
  split; [|split].
  - destruct (str_in w ["true"; "yes"; "y"; "1"]) eqn:Et.
    + destruct (Hdisj eq_refl) as [H1 H2]. split; [discriminate | tauto].
    + destruct (str_in w ["false"; "no"; "n"; "0"]) eqn:Ef.
      * apply str_in_iff in Ef. tauto.
      * apply str_in_false in Ef. simpl py_truthy. split.
        -- intros H. apply negb_false_iff, String.eqb_eq in H. auto.
        -- intros [-> | H]; [reflexivity | contradiction].
  - intros H. apply str_in_iff in H. rewrite H. reflexivity.
  - intros Hne Hs. subst w. rewrite Hs. simpl.
    apply String.eqb_neq in Hne. rewrite Hne. reflexivity.
Qed.

End BoolProperties.

(* ================================================================== *)
(** * Integers and their decimal text *)
(* ================================================================== *)

Section DecimalText.

Import PyStr Literal.

Lemma all_chars_app (q : ascii -> bool) (a b : string) :
  all_chars q (a ++ b) = all_chars q a && all_chars q b.
Proof.
  induction a as [|c a IH]; simpl; [reflexivity|].
  rewrite IH. apply andb_assoc.
Qed.

Lemma all_chars_rev (q : ascii -> bool) (s : string) :
  all_chars q (rev s) = all_chars q s.
Proof.
  induction s as [|c s IH]; [reflexivity|].
  rewrite rev_cons, all_chars_app, IH. simpl.
  rewrite andb_true_r. apply andb_comm.
Qed.

Lemma all_chars_head (q : ascii -> bool) (s : string) :
  all_chars q s = true ->
  match s with
  | String c _ => q c = true
  | EmptyString => True
  end.
Proof.
  destruct s as [|c s]; simpl; [auto|].
  intros H. apply andb_true_iff in H. tauto.
Qed.

Lemma all_chars_impl (q r : ascii -> bool) (s : string) :
  (forall c, q c = true -> r c = true) -> all_chars q s = true -> all_chars r s = true.
Proof.
  intros Hqr. induction s as [|c s IH]; simpl; [auto|].
  intros H. apply andb_true_iff in H. destruct H as [H1 H2].
  rewrite (Hqr c H1), (IH H2). reflexivity.
Qed.

(** A string without a character to strip is left as it is. *)
Lemma strip_by_all (p : ascii -> bool) (s : string) :
  all_chars (fun c => negb (p c)) s = true -> strip_by p s = s.
Proof.
  intros H. unfold strip_by.
  assert (forall t, all_chars (fun c => negb (p c)) t = true -> drop_while p t = t) as Hfix.
  { intros t Ht. apply drop_while_fixed. apply all_chars_head in Ht.
    destruct t; [exact I | apply negb_true_iff, Ht]. }
  rewrite (Hfix s H), Hfix by (rewrite all_chars_rev; exact H).
  apply rev_involutive.
Qed.

Lemma digit_facts (c : ascii) :
  is_digit c = true ->
  is_underscore c = false /\ is_sign c = false /\ is_space c = false
  /\ (code c =? 45) = false.
Proof.
  unfold is_digit, is_underscore, is_sign, is_space.
  intros H. apply andb_true_iff in H. destruct H as [H1 H2].
  apply Nat.leb_le in H1, H2.
  repeat split;
    repeat match goal with
           | |- context [?a =? ?b] =>
               let E := fresh in destruct (Nat.eqb_spec a b) as [E|E]; [lia|]
           | |- context [?a <=? ?b] =>
               let E := fresh in destruct (Nat.leb_spec a b) as [E|E]; try lia
           end; reflexivity.
Qed.

Lemma digits_all_digits (d : Decimal.uint) :
  all_chars is_digit (NilEmpty.string_of_uint d) = true.
Proof. induction d; simpl; auto. Qed.

Lemma all_digits_all_chars (s : string) : all_digits s = all_chars is_digit s.
Proof. induction s as [|c s IH]; simpl; congruence. Qed.

Lemma digits_underscores_ok (s : string) (prev : bool) :
  all_chars is_digit s = true -> underscores_ok prev s = true.
Proof.
  revert prev. induction s as [|c s IH]; intros prev H; simpl; [reflexivity|].
  simpl in H. apply andb_true_iff in H. destruct H as [Hc Hs].
  destruct (digit_facts c Hc) as [-> _]. apply IH, Hs.
Qed.

Lemma digits_remove_underscores (s : string) :
  all_chars is_digit s = true -> remove_underscores s = s.
Proof.
  induction s as [|c s IH]; intros H; simpl; [reflexivity|].
  simpl in H. apply andb_true_iff in H. destruct H as [Hc Hs].
  destruct (digit_facts c Hc) as [-> _]. rewrite (IH Hs). reflexivity.
Qed.

(** [int] on a run of digits within the limit, with and without a
    minus sign. *)
Lemma int_of_str_digits (s : string) :
  all_chars is_digit s = true -> s <> "" ->
  String.length s <= int_max_str_digits ->
  int_of_str s = Ok (digits_value 0 s)
  /\ int_of_str (String "-" s) = Ok (- digits_value 0 s)%Z.
Proof.
  intros Hd Hne Hlen. unfold int_of_str.
  assert (drop_sign s = s) as Hds.
  { destruct s as [|c s]; [reflexivity|]. simpl in Hd.
    apply andb_true_iff in Hd. destruct Hd as [Hc _].
    simpl. destruct (digit_facts c Hc) as [_ [-> _]]. reflexivity. }
  assert (negative s = false) as Hneg.
  { destruct s as [|c s]; [reflexivity|]. simpl in Hd.
    apply andb_true_iff in Hd. destruct Hd as [Hc _].
    simpl. destruct (digit_facts c Hc) as [_ [_ [_ ->]]]. reflexivity. }
  assert (String.eqb s "" = false) as Hnb by (apply String.eqb_neq, Hne).
  apply Nat.leb_le in Hlen.
  split.
  - rewrite Hds, (digits_remove_underscores s Hd), (digits_underscores_ok s false Hd),
      all_digits_all_chars, Hd, Hnb, Hneg, Hlen. reflexivity.
  - change (drop_sign (String "-" s)) with s.
    change (negative (String "-" s)) with true.
    change (underscores_ok false (String "-" s)) with (underscores_ok false s).
    rewrite (digits_remove_underscores s Hd), (digits_underscores_ok s false Hd),
      all_digits_all_chars, Hd, Hnb, Hlen. reflexivity.
Qed.

Lemma digits_value_revapp (d acc : Decimal.uint) :
  digits_value (Z.of_N (DecimalPos.Unsigned.of_lu acc)) (NilEmpty.string_of_uint d)
  = Z.of_N (DecimalPos.Unsigned.of_lu (Decimal.revapp d acc)).
Proof.
  revert acc.
  induction d as [|d IH|d IH|d IH|d IH|d IH|d IH|d IH|d IH|d IH|d IH]; intros acc;
    [reflexivity|..];
    cbn [NilEmpty.string_of_uint digits_value Decimal.revapp];
    rewrite <- IH; f_equal; cbn [DecimalPos.Unsigned.of_lu];
    rewrite ?N2Z.inj_add, N2Z.inj_mul;
    match goal with
    | |- context [Z.of_nat ?n] =>
        let k := eval vm_compute in (Z.of_nat n) in change (Z.of_nat n) with k
    end;
    change (Z.of_N 10) with 10%Z; simpl Z.of_N; lia.
Qed.

Lemma digits_value_uint (d : Decimal.uint) :
  digits_value 0 (NilEmpty.string_of_uint d) = Z.of_uint d.
Proof.
  unfold Z.of_uint. rewrite DecimalPos.Unsigned.of_uint_alt.
  apply (digits_value_revapp d Decimal.Nil).
Qed.

Lemma of_Z_pos (p : positive) :
  of_Z (Z.pos p) = NilEmpty.string_of_uint (Pos.to_uint p)
  /\ of_Z (Z.neg p) = String "-" (NilEmpty.string_of_uint (Pos.to_uint p))
  /\ NilEmpty.string_of_uint (Pos.to_uint p) <> "".
Proof.
  unfold of_Z. simpl.
  pose proof (DecimalPos.Unsigned.to_uint_nonnil p) as Hn.
  destruct (Pos.to_uint p); try congruence; repeat split; discriminate.
Qed.

End DecimalText.

Section IntRoundTrip.

Context {F : PyFloat}.

(** X4.  The decimal text of an integer reads back as the integer,
    for an integer within the digit limit, which are the integers that
    have a text: [int(str(z))] is [z], the text has no white space to
    trim, and coercing the string form of the integer at kind [int]
    gives the integer back. *)
Theorem int_text_round_trip (z : Z) :
  renders (VInt z) = true ->
  Literal.int_of_str (PyStr.of_Z z) = Ok z
  /\ PyStr.strip (PyStr.of_Z z) = PyStr.of_Z z
  /\ _coerce_value "str" (VInt z) = Ok (VStr (PyStr.of_Z z))
  /\ _coerce_value "int" (VStr (PyStr.of_Z z)) = Ok (VInt z).
Proof.
  intros Hr. cbn [renders] in Hr. apply Nat.leb_le in Hr.
  assert (Literal.int_of_str (PyStr.of_Z z) = Ok z
          /\ PyStr.strip (PyStr.of_Z z) = PyStr.of_Z z) as [H1 H2].
  { destruct z as [|p|p].
    - split; reflexivity.
    - cbn [Z.abs] in Hr. destruct (of_Z_pos p) as [Hp [_ Hne]].
      rewrite Hp in Hr |- *.
      pose proof (digits_all_digits (Pos.to_uint p)) as Hd. split.
      + rewrite (proj1 (int_of_str_digits _ Hd Hne Hr)), digits_value_uint.
        unfold Z.of_uint. rewrite DecimalPos.Unsigned.of_to. reflexivity.
      + apply strip_by_all. revert Hd. apply all_chars_impl.
        intros c Hc. destruct (digit_facts c Hc) as [_ [_ [-> _]]]. reflexivity.
    - cbn [Z.abs] in Hr. destruct (of_Z_pos p) as [Hp [-> Hne]].
      rewrite Hp in Hr.
      pose proof (digits_all_digits (Pos.to_uint p)) as Hd. split.
      + rewrite (proj2 (int_of_str_digits _ Hd Hne Hr)), digits_value_uint.
        unfold Z.of_uint. rewrite DecimalPos.Unsigned.of_to. reflexivity.
      + apply strip_by_all. cbn [all_chars]. apply andb_true_iff. split; [reflexivity|].
        revert Hd. apply all_chars_impl.
        intros c Hc. destruct (digit_facts c Hc) as [_ [_ [-> _]]]. reflexivity. }
  repeat split; try assumption.
  change (_coerce_value "int" (VStr (PyStr.of_Z z)))
    with (bind (Literal.int_of_str (PyStr.strip (PyStr.of_Z z))) (fun z' => Ok (VInt z'))).
  rewrite H2, H1. reflexivity.
Qed.

End IntRoundTrip.

(** X4 on the integer -2024. *)
Lemma int_text_round_trip_witness :
  @renders NoFloat (VInt (-2024)) = true
  /\ Literal.int_of_str "-2024" = Ok (-2024)%Z
  /\ @_coerce_value NoFloat "int" (VStr "-2024") = Ok (VInt (-2024)).
Proof.
  destruct (@int_text_round_trip NoFloat (-2024) eq_refl) as [H1 [_ [_ H4]]].
  split; [reflexivity|]. split; [exact H1|exact H4].
Defined.

(* ================================================================== *)
(** * The validator decides the rules of the override *)
(* ================================================================== *)

Section ValidatorDecides.

Context {F : PyFloat}.

Lemma missing_nil_iff ov bound :
  missing ov bound = [] <->
  (forall r, In r (required ov) -> is_blank (dict_get r bound) = false)
  /\ (forall r, In r (required_if ov) -> rule_meets bound r = true ->
                is_blank (dict_get (rule_param r) bound) = false).
Proof.
  split.
  - intros Hnil. split.
    + intros r Hr. destruct (is_blank (dict_get r bound)) eqn:Hb; [|reflexivity].
      assert (In r (missing ov bound)) as Hin
          by (apply In_missing; left; apply In_missing_required; auto).
      rewrite Hnil in Hin. destruct Hin.
    + intros r Hr Hm.
      destruct (is_blank (dict_get (rule_param r) bound)) eqn:Hb; [|reflexivity].
      assert (In (rule_param r) (missing ov bound)) as Hin.
      { apply In_missing; right; apply In_missing_conditional.
        exists r. repeat split; auto. unfold rule_fires. rewrite Hm, Hb. reflexivity. }
      rewrite Hnil in Hin. destruct Hin.
  - intros [Hreq Hif]. destruct (missing ov bound) as [|field rest] eqn:Hm; [reflexivity|].
    exfalso.
    assert (In field (missing ov bound)) as Hin by (rewrite Hm; left; reflexivity).
    apply In_missing in Hin. destruct Hin as [Hin|Hin].
    + apply In_missing_required in Hin. destruct Hin as [Hr Hb].
      rewrite (Hreq field Hr) in Hb. discriminate.
    + apply In_missing_conditional in Hin. destruct Hin as [r [Hr [Hp Hf]]].
      unfold rule_fires in Hf. apply andb_true_iff in Hf. destruct Hf as [Hmeets Hb].
      rewrite (Hif r Hr Hmeets) in Hb. discriminate.
Qed.

(** X5.  The validator is a decision procedure for the rules of the
    override: a binding goes on to the domain function exactly when no
    required parameter is blank, no conditional rule that applies has a
    blank parameter, and no string exceeds its limit.  Any other binding
    is answered with an error dictionary; the validator never raises,
    and the domain function is called at most once, on a binding that
    meets the rules. *)
Theorem validator_decides (ov : FunctionOverride) (bound : dict) :
  (validate ov bound = Invokes bound <-> valid_binding ov bound)
  /\ (forall b, validate ov bound = Invokes b -> b = bound)
  /\ (validate ov bound = Invokes bound
      \/ exists msg, validate ov bound = Returns (error_dict msg))
  /\ (forall (func : dict -> result value) (sig : signature) (raw b : dict),
         In b (snd (wrapper func ov sig raw)) ->
         valid_binding ov b /\ snd (wrapper func ov sig raw) = [b]).
Proof.
  assert (validate ov bound = Invokes bound <-> valid_binding ov bound) as Hiff.
  { unfold valid_binding. split.
    - intros Hv.
      destruct (missing ov bound) as [|f rest] eqn:Hm.
      + rewrite (validate_no_missing _ _ Hm) in Hv.
        destruct (check_lengths bound (max_lengths ov)) eqn:Hc; [discriminate|].
        apply missing_nil_iff in Hm. destruct Hm as [H1 H2].
        repeat split; auto. apply check_lengths_None, Hc.
      + unfold validate in Hv. rewrite Hm in Hv. discriminate.
    - intros [H1 [H2 H3]].
      assert (missing ov bound = []) as Hm by (apply missing_nil_iff; split; auto).
      rewrite (validate_no_missing _ _ Hm).
      apply check_lengths_None in H3. rewrite H3. reflexivity. }
  split; [exact Hiff|]. split; [|split].
  - intros b Hb. unfold validate in Hb.
    destruct (missing ov bound); [|discriminate].
    destruct (check_lengths bound (max_lengths ov)); [discriminate|]. congruence.
  - unfold validate. destruct (missing ov bound) eqn:Hm.
    + destruct (check_lengths bound (max_lengths ov)); eauto.
    + right. eauto.
  - intros func sig raw b Hin. unfold wrapper in *.
    destruct (wrapper_outcome ov sig raw) as [v|e|b'] eqn:Hw; simpl in Hin; try tauto.
    destruct Hin as [<-|[]]. split; [|reflexivity].
    unfold wrapper_outcome in Hw.
    destruct (build_binding ov sig (resolve_args ov raw)) as [bd|e]; [|discriminate].
    unfold valid_binding.
    destruct (missing ov bd) as [|f rest] eqn:Hm.
    + rewrite (validate_no_missing _ _ Hm) in Hw.
      destruct (check_lengths bd (max_lengths ov)) eqn:Hc; [discriminate|].
      injection Hw as <-.
      apply missing_nil_iff in Hm. destruct Hm as [H1 H2].
      repeat split; auto. apply check_lengths_None, Hc.
    + unfold validate in Hw. rewrite Hm in Hw. discriminate.
Qed.

End ValidatorDecides.

(* ================================================================== *)
(** * The rules count as sets *)
(* ================================================================== *)

Section RulesAsSets.

Context {F : PyFloat}.

Lemma string_leb_trans (a b c : string) :
  String.leb a b = true -> String.leb b c = true -> String.leb a c = true.
Proof.
  unfold String.leb.
  assert (forall a b c,
             String.compare a b <> Gt -> String.compare b c <> Gt ->
             String.compare a c <> Gt) as H.
  { clear. induction a as [|x a IH]; intros [|y b] [|z c]; simpl; try congruence.
    unfold Ascii.compare.
    destruct (N.compare_spec (N_of_ascii x) (N_of_ascii y)) as [Exy|Exy|Exy];
      destruct (N.compare_spec (N_of_ascii y) (N_of_ascii z)) as [Eyz|Eyz|Eyz];
      destruct (N.compare_spec (N_of_ascii x) (N_of_ascii z)) as [Exz|Exz|Exz];
      try congruence; try lia; try (intros; discriminate).
    apply IH. }
  intros Hab Hbc. specialize (H a b c).
  destruct (String.compare a b); try discriminate;
    destruct (String.compare b c); try discriminate;
    destruct (String.compare a c); try reflexivity;
    exfalso; apply H; congruence.
Qed.

Lemma sorted_head_least (a : string) (l : list string) (x : string) :
  Sorted str_le (a :: l) -> In x (a :: l) -> str_le a x.
Proof.
  intros Hs Hin. apply Sorted_StronglySorted in Hs.
  - inversion Hs as [|? ? _ Hall]; subst. destruct Hin as [<-|Hin].
    + unfold str_le. destruct (String.leb_total a a); assumption.
    + rewrite Forall_forall in Hall. apply Hall, Hin.
  - intros p q r. apply string_leb_trans.
Qed.

(** Two sorted lists without duplicates and with the same elements are
    the same list. *)
Lemma sorted_unique (l1 l2 : list string) :
  Sorted str_le l1 -> Sorted str_le l2 -> NoDup l1 -> NoDup l2 ->
  (forall x, In x l1 <-> In x l2) -> l1 = l2.
Proof.
  revert l2. induction l1 as [|a l1 IH]; intros [|b l2] S1 S2 N1 N2 Hsame.
  - reflexivity.
  - exfalso. apply (proj2 (Hsame b)). left; reflexivity.
  - exfalso. apply (proj1 (Hsame a)). left; reflexivity.
  - assert (a = b) as ->.
    { apply String.leb_antisym.
      - apply (sorted_head_least a l1 b S1). apply Hsame. left; reflexivity.
      - apply (sorted_head_least b l2 a S2). apply Hsame. left; reflexivity. }
    f_equal. inversion S1; inversion S2; inversion N1; inversion N2; subst.
    apply IH; auto. intros x. split; intros Hx.
    + destruct (proj1 (Hsame x) (or_intror Hx)) as [<-|]; [contradiction|assumption].
    + destruct (proj2 (Hsame x) (or_intror Hx)) as [<-|]; [contradiction|assumption].
Qed.

Lemma sorted_set_same (l1 l2 : list string) :
  (forall x, In x l1 <-> In x l2) -> PyStr.sorted_set l1 = PyStr.sorted_set l2.
Proof.
  intros Hsame.
  apply sorted_unique; auto using sorted_set_Sorted, sorted_set_NoDup.
  intros x. rewrite !In_sorted_set. apply Hsame.
Qed.

(** X6.  The validator reads [required] and [required_if] as sets: two
    overrides with the same length limits whose required names and
    whose conditional rules are the same up to order and repetition
    treat every binding alike, down to the text of the error. *)
Theorem validate_rules_as_sets (ov1 ov2 : FunctionOverride) (bound : dict) :
  (forall r, In r (required ov1) <-> In r (required ov2)) ->
  (forall r, In r (required_if ov1) <-> In r (required_if ov2)) ->
  max_lengths ov1 = max_lengths ov2 ->
  validate ov1 bound = validate ov2 bound.
Proof.
  intros Hreq Hif Hmax.
  assert (forall x, In x (missing ov1 bound) <-> In x (missing ov2 bound)) as Hsame.
  { intros x. rewrite !In_missing, !In_missing_required, !In_missing_conditional.
    rewrite Hreq. split; (intros [H|[r [Hr Hrest]]]; [left; exact H|right; exists r]);
      (split; [apply Hif, Hr|exact Hrest]). }
  unfold validate, missing_message. rewrite <- Hmax.
  rewrite (sorted_set_same _ _ Hsame).
  destruct (missing ov1 bound) as [|a l1] eqn:H1;
    destruct (missing ov2 bound) as [|b l2] eqn:H2; try reflexivity.
  - exfalso. apply (proj2 (Hsame b)). left; reflexivity.
  - exfalso. apply (proj1 (Hsame a)). left; reflexivity.
Qed.

End RulesAsSets.

(** X6 on two spellings of the rule [{a, b} required]: the binding
    [{a: x}] is refused by both with the same text. *)
Lemma validate_rules_as_sets_witness :
  let ov1 := {| expected_types := []; required := ["b"; "a"; "b"]; optional := [];
                required_if := []; defaults := []; aliases := [];
                max_lengths := [] |} in
  let ov2 := {| expected_types := []; required := ["a"; "b"]; optional := [];
                required_if := []; defaults := []; aliases := [];
                max_lengths := [] |} in
  let bound := [("a", @VStr NoFloat "x")] in
  validate ov1 bound = validate ov2 bound
  /\ validate ov2 bound
     = Returns (error_dict "Missing required parameter(s): b").
Proof.
  intros ov1 ov2 bound. split; [|vm_compute; reflexivity].
  apply (validate_rules_as_sets ov1 ov2 bound).
  - intros r. simpl. tauto.
  - intros r. simpl. tauto.
  - reflexivity.
Defined.

(* ================================================================== *)
(** * Where the phone number comes from *)
(* ================================================================== *)

Section PhoneSource.

Context {F : PyFloat}.
Implicit Types (m : dict) (items : list value).


Lemma first_contact_None items :
  first_contact items = None <-> forallb blank_item items = true.
Proof.
  unfold blank_item. induction items as [|item rest IH]; simpl; [tauto|].
  destruct (String.eqb (PyStr.strip (py_str item)) ""); simpl; [exact IH|].
  split; discriminate.
Qed.



End PhoneSource.

(* ================================================================== *)
(** * What the alias resolver leaves behind *)
(* ================================================================== *)

Section AliasResolution.

Context {F : PyFloat}.
Implicit Types (m : dict) (table : list (string * string)).

Lemma first_alias_ext table c m m' :
  (forall a, In a (map fst table) -> dict_mem a m' = dict_mem a m) ->
  first_alias table c m' = first_alias table c m.
Proof.
  induction table as [|[a c'] rest IH]; intros H; simpl; [reflexivity|].
  rewrite (H a) by (left; reflexivity).
  rewrite IH by (intros a' Ha'; apply H; right; exact Ha'). reflexivity.
Qed.

Lemma first_alias_In table c m a :
  first_alias table c m = Some a -> In (a, c) table /\ dict_mem a m = true.
Proof.
  induction table as [|[a' c'] rest IH]; simpl; [discriminate|].
  destruct (String.eqb_spec c' c) as [->|Hne]; simpl.
  - destruct (dict_mem a' m) eqn:E.
    + intros [= <-]. auto.
    + intros H. destruct (IH H). auto.
  - intros H. destruct (IH H). auto.
Qed.

Lemma canonical_after_aliases table m c :
  ~ In c (map fst table) -> NoDup (map fst table) -> chain_free table ->
  dict_find c (apply_aliases table m)
  = match dict_find c m with
    | Some v => Some v
    | None => match first_alias table c m with
              | Some a => dict_find a m
              | None => None
              end
    end.
Proof.
  revert m. induction table as [|[a c1] rest IH]; intros m Hc Hnd Hcf.
  - simpl. destruct (dict_find c m); reflexivity.
  - assert (c <> a) as Hca by (intros ->; apply Hc; left; reflexivity).
    assert (~ In c (map fst rest)) as Hc' by (intros H; apply Hc; right; exact H).
    assert (NoDup (map fst rest)) as Hnd' by (inversion Hnd; assumption).
    assert (~ In a (map fst rest)) as Ha by (inversion Hnd; assumption).
    assert (chain_free rest) as Hcf'.
    { intros c0 H0 H1. apply (Hcf c0); right; assumption. }
    assert (~ In c1 (map fst rest)) as Hc1.
    { intros H. apply (Hcf c1); [left; reflexivity|right; exact H]. }
    change (apply_aliases ((a, c1) :: rest) m)
      with (apply_aliases rest (apply_alias m (a, c1))).
    rewrite (IH _ Hc' Hnd' Hcf'). cbn [first_alias].
    destruct (alias_fires m (a, c1)) eqn:Hf.
    + destruct (alias_fires_inv _ _ _ Hf) as [Ham Hc1m].
      rewrite (apply_alias_find m a c1 c Hf).
      destruct (String.eqb_spec c c1) as [->|Hne].
      * rewrite String.eqb_refl, Ham. simpl.
        apply dict_mem_false in Hc1m. rewrite Hc1m.
        unfold dict_get. apply dict_mem_find in Ham. destruct Ham as [v ->].
        reflexivity.
      * destruct (String.eqb_spec c a); [contradiction|].
        destruct (String.eqb_spec c1 c) as [E|_]; [symmetry in E; contradiction|].
        cbn [andb]. rewrite (first_alias_ext rest c m (apply_alias m (a, c1))).
        -- destruct (dict_find c m); [reflexivity|].
           destruct (first_alias rest c m) as [a'|] eqn:Hfa; [|reflexivity].
           apply first_alias_In in Hfa. destruct Hfa as [Hin _].
           apply apply_alias_find_other.
           ++ intros ->. apply Ha. apply (in_map fst) in Hin. exact Hin.
           ++ intros ->. apply Hc1. apply (in_map fst) in Hin. exact Hin.
        -- intros a' Ha'. apply find_eq_mem_eq, apply_alias_find_other.
           ++ intros ->. contradiction.
           ++ intros ->. contradiction.
    + rewrite (apply_alias_idle _ _ Hf).
      destruct (dict_find c m) eqn:Hcm; [reflexivity|].
      destruct (String.eqb_spec c1 c) as [->|Hne]; simpl; [|reflexivity].
      apply alias_fires_false in Hf. destruct Hf as [Hf|Hf].
      * rewrite Hf. reflexivity.
      * apply dict_mem_find in Hf. destruct Hf as [v Hv]. congruence.
Qed.

(** X8.  The alias resolver for a table whose alias keys are distinct
    and in which no canonical key is itself an alias.  A canonical key
    the caller gives keeps its value, and an alias given beside it
    stays in the arguments; a canonical key the caller does not give
    takes the value of the first of its aliases, in the order of the
    table, that the caller gives.  Afterwards no alias is left without
    its canonical key, and a key that is neither an alias nor a
    canonical key of the table is as it was. *)
Theorem alias_resolution table m :
  NoDup (map fst table) -> chain_free table ->
  (forall c, In c (map snd table) ->
     dict_find c (apply_aliases table m)
     = match dict_find c m with
       | Some v => Some v
       | None => match first_alias table c m with
                 | Some a => dict_find a m
                 | None => None
                 end
       end)
  /\ (forall a c, In (a, c) table -> dict_mem c m = true ->
                  dict_find a (apply_aliases table m) = dict_find a m)
  /\ (forall a c, In (a, c) table -> dict_mem a (apply_aliases table m) = true ->
                  dict_mem c (apply_aliases table m) = true)
  /\ (forall k, ~ In k (map fst table) -> ~ In k (map snd table) ->
                dict_find k (apply_aliases table m) = dict_find k m).
Proof.
  intros Hnd Hcf. split; [|split; [|split]].
  - intros c Hc. apply canonical_after_aliases; auto.
  - intros a c Hin Hc.
    destruct (dict_mem a m) eqn:Ha.
    + apply apply_aliases_find_guarded; [exact Ha|].
      intros c' Hin'.
      assert (c' = c) as ->.
      { clear -Hnd Hin Hin'. induction table as [|[a0 c0] rest IH]; [destruct Hin|].
        simpl in Hnd. inversion Hnd as [|? ? Hno Hnd']; subst.
        destruct Hin as [E|Hin]; destruct Hin' as [E'|Hin'].
        - congruence.
        - injection E as -> ->. exfalso. apply Hno.
          apply (in_map fst) in Hin'. exact Hin'.
        - injection E' as -> ->. exfalso. apply Hno.
          apply (in_map fst) in Hin. exact Hin.
        - apply IH; auto. }
      split; [exact Hc|]. apply Hcf. apply (in_map snd) in Hin. exact Hin.
    + destruct (dict_mem a (apply_aliases table m)) eqn:Ha'.
      * exfalso. apply apply_aliases_added in Ha'. destruct Ha' as [Ha'|Ha']; [congruence|].
        apply (Hcf a Ha'). apply (in_map fst) in Hin. exact Hin.
      * apply dict_mem_false in Ha, Ha'. congruence.
  - intros a c Hin Ha.
    pose proof (apply_aliases_resolved table table m Hcf (incl_refl _) a c Hin) as Hr.
    apply alias_fires_false in Hr. simpl in Hr. destruct Hr as [Hr|Hr]; [|exact Hr].
    unfold apply_aliases in Ha. congruence.
  - intros k Hk1 Hk2.
    destruct (dict_mem k m) eqn:Hk.
    + apply apply_aliases_find_keep; auto.
    + destruct (dict_mem k (apply_aliases table m)) eqn:Hk'.
      * exfalso. apply apply_aliases_added in Hk'. destruct Hk'; [congruence|contradiction].
      * apply dict_mem_false in Hk, Hk'. congruence.
Qed.

End AliasResolution.

(** X8 on the table of [update_contact] and arguments that give
    [phoneNumber], [group] and [group_id]. *)
Lemma alias_resolution_witness :
  let table := aliases (@update_contact_override NoFloat) in
  let m := [("phoneNumber", @VStr NoFloat "024"); ("group", VStr "g1");
            ("group_id", VStr "g2")] in
  dict_find "phone" (apply_aliases table m) = Some (VStr "024")
  /\ dict_find "group_id" (apply_aliases table m) = Some (VStr "g2")
  /\ dict_find "group" (apply_aliases table m) = Some (VStr "g1")
  /\ dict_mem "phoneNumber" (apply_aliases table m) = false.
Proof.
  intros table m.
  assert (NoDup (map fst table)) as Hnd.
  { vm_compute. repeat constructor; simpl; intuition discriminate. }
  assert (chain_free table) as Hcf.
  { intros c Hc Ha. vm_compute in Hc, Ha.
    repeat (destruct Hc as [<-|Hc]; [intuition discriminate|]). exact Hc. }
  destruct (alias_resolution table m Hnd Hcf) as [H1 [H2 [H3 H4]]].
  split; [|split; [|split]].
  - rewrite (H1 "phone") by (vm_compute; auto). reflexivity.
  - rewrite (H1 "group_id") by (vm_compute; auto). reflexivity.
  - rewrite (H2 "group" "group_id") by (vm_compute; auto). reflexivity.
  - vm_compute. reflexivity.
Defined.

(* ================================================================== *)
(** * Merging alias tables (line 374) *)
(* ================================================================== *)

Section MergeAliases.

Implicit Types (a b t : list (string * string)).

Lemma assoc_alias_set (k k' c : string) t :
  assoc k (alias_set k' c t) = if String.eqb k k' then Some c else assoc k t.
Proof.
  induction t as [|[k0 c0] t IH]; simpl; [reflexivity|].
  destruct (String.eqb_spec k' k0) as [->|Hne]; simpl.
  - destruct (String.eqb k k0); reflexivity.
  - rewrite IH. destruct (String.eqb_spec k k0) as [->|_]; [|reflexivity].
    destruct (String.eqb_spec k0 k'); [congruence|reflexivity].
Qed.

Lemma assoc_absent {A : Type} (k : string) (l : list (string * A)) :
  ~ In k (map fst l) -> assoc k l = None.
Proof.
  induction l as [|[k0 x] l IH]; simpl; [reflexivity|].
  intros H. destruct (String.eqb_spec k k0) as [->|_]; [tauto|].
  apply IH. tauto.
Qed.

Lemma alias_set_new (k c : string) t :
  ~ In k (map fst t) -> alias_set k c t = (t ++ [(k, c)])%list.
Proof.
  induction t as [|[k0 c0] t IH]; simpl; [reflexivity|].
  intros H. destruct (String.eqb_spec k k0) as [->|_]; [tauto|].
  rewrite IH by tauto. reflexivity.
Qed.

Lemma alias_set_keys (k c : string) t :
  (In k (map fst t) /\ map fst (alias_set k c t) = map fst t)
  \/ (~ In k (map fst t) /\ map fst (alias_set k c t) = (map fst t ++ [k])%list).
Proof.
  induction t as [|[k0 c0] t IH]; simpl; [right; tauto|].
  destruct (String.eqb_spec k k0) as [->|Hne]; simpl; [left; tauto|].
  destruct IH as [[H1 H2]|[H1 H2]]; rewrite H2; [left|right]; split; auto.
  intros [E|E]; [congruence|tauto].
Qed.

Lemma merge_lookup a b (k : string) :
  NoDup (map fst b) ->
  assoc k (merge_aliases a b)
  = match assoc k b with
    | Some c => Some c
    | None => assoc k a
    end.
Proof.
  unfold merge_aliases. revert a.
  induction b as [|[k1 c1] b IH]; intros a Hnd; simpl; [reflexivity|].
  inversion Hnd as [|? ? Hno Hnd']; subst.
  rewrite (IH _ Hnd'), assoc_alias_set.
  destruct (String.eqb_spec k k1) as [->|_]; [|reflexivity].
  rewrite (assoc_absent k1 b Hno). reflexivity.
Qed.

(** The keys of the first table stay in front, in their order; the new
    keys of the second follow. *)
Lemma merge_keys a b :
  NoDup (map fst a) ->
  NoDup (map fst (merge_aliases a b))
  /\ exists rest, map fst (merge_aliases a b) = (map fst a ++ rest)%list
                  /\ forall k, In k rest <-> In k (map fst b) /\ ~ In k (map fst a).
Proof.
  unfold merge_aliases.
  enough (forall b t front,
             NoDup (map fst t) ->
             (exists rest, map fst t = (front ++ rest)%list) ->
             NoDup (map fst (fold_left (fun t kc => alias_set (fst kc) (snd kc) t) b t))
             /\ exists rest,
                 map fst (fold_left (fun t kc => alias_set (fst kc) (snd kc) t) b t)
                 = (map fst t ++ rest)%list
                 /\ forall k, In k rest <-> In k (map fst b) /\ ~ In k (map fst t)) as H.
  { intros Hnd. apply (H b a (map fst a) Hnd). exists []. rewrite app_nil_r. reflexivity. }
  clear. induction b as [|[k1 c1] b IH]; intros t front Hnd Hfront; simpl.
  - split; [exact Hnd|]. exists []. rewrite app_nil_r. split; [reflexivity|]. simpl. tauto.
  - destruct (alias_set_keys k1 c1 t) as [[Hin Hk]|[Hout Hk]].
    + destruct (IH (alias_set k1 c1 t) (map fst t)) as [H1 [rest [H2 H3]]].
      * rewrite Hk. exact Hnd.
      * exists []. rewrite Hk, app_nil_r. reflexivity.
      * split; [exact H1|]. exists rest. rewrite Hk in H2, H3. split; [exact H2|].
        intros k. rewrite H3. split; [tauto|].
        intros [[<-|H]]; tauto.
    + destruct (IH (alias_set k1 c1 t) (map fst t)) as [H1 [rest [H2 H3]]].
      * rewrite Hk. apply NoDup_app; [exact Hnd|repeat constructor; simpl; tauto|].
        intros x Hx [<-|[]]. contradiction.
      * exists [k1]. exact Hk.
      * split; [exact H1|]. exists (k1 :: rest). rewrite Hk in H2, H3.
        rewrite H2, <- app_assoc. split; [reflexivity|].
        intros k. simpl. rewrite H3, in_app_iff. simpl. split.
        -- intros [<-|[Hb Hn]]; [tauto|]. split; [tauto|]. intros Ht. apply Hn. tauto.
        -- intros [[<-|Hb] Hn]; [tauto|].
           destruct (string_dec k1 k) as [<-|Hne]; [tauto|]. right. split; [exact Hb|].
           intros [Ht|[E|[]]]; tauto.
Qed.

Lemma fold_alias_head (k c : string) (p t : list (string * string)) :
  ~ In k (map fst p) ->
  fold_left (fun t kc => alias_set (fst kc) (snd kc) t) p ((k, c) :: t)
  = (k, c) :: fold_left (fun t kc => alias_set (fst kc) (snd kc) t) p t.
Proof.
  revert t. induction p as [|[k1 c1] p IH]; intros t Hk; simpl; [reflexivity|].
  simpl in Hk. destruct (String.eqb_spec k1 k) as [->|_]; [tauto|].
  apply IH. tauto.
Qed.

Lemma fold_alias_same_keys (p a : list (string * string)) :
  map fst p = map fst a -> NoDup (map fst a) ->
  fold_left (fun t kc => alias_set (fst kc) (snd kc) t) p a = p.
Proof.
  revert a. induction p as [|[k1 c1] p IH]; intros [|[k2 c2] a] Hk Hnd;
    try discriminate; [reflexivity|].
  simpl in Hk. injection Hk as <- Hk. inversion Hnd as [|? ? Hno Hnd']; subst.
  simpl. rewrite String.eqb_refl. rewrite fold_alias_head by (rewrite Hk; exact Hno).
  rewrite (IH a Hk Hnd'). reflexivity.
Qed.

Lemma fold_alias_fresh (q p : list (string * string)) :
  NoDup (map fst (p ++ q)) ->
  fold_left (fun t kc => alias_set (fst kc) (snd kc) t) q p = (p ++ q)%list.
Proof.
  revert p. induction q as [|[k c] q IH]; intros p Hnd; simpl.
  - rewrite app_nil_r. reflexivity.
  - rewrite map_app in Hnd. simpl in Hnd.
    pose proof (NoDup_remove_2 _ _ _ Hnd) as Hno.
    rewrite alias_set_new by (intros H; apply Hno, in_or_app; left; exact H).
    rewrite IH; rewrite <- app_assoc; [reflexivity|].
    rewrite map_app. exact Hnd.
Qed.

(** X9.  The merge of the global aliases of a tool with the aliases of
    its override, for tables with distinct keys.  A lookup finds the
    entry of the override and, failing that, the global entry.  The
    merged table has distinct keys again: the global keys come first,
    in their order, and the new keys of the override follow.  Merging
    the global table into the result once more changes nothing, so
    registering again with the same tables leaves the aliases as they
    are. *)
Theorem merge_aliases_spec (global own : list (string * string)) :
  NoDup (map fst global) -> NoDup (map fst own) ->
  (forall k, assoc k (merge_aliases global own)
             = match assoc k own with
               | Some c => Some c
               | None => assoc k global
               end)
  /\ NoDup (map fst (merge_aliases global own))
  /\ (exists rest,
         map fst (merge_aliases global own) = (map fst global ++ rest)%list
         /\ forall k, In k rest <-> In k (map fst own) /\ ~ In k (map fst global))
  /\ merge_aliases global (merge_aliases global own) = merge_aliases global own.
Proof.
  intros Hg Ho.
  destruct (merge_keys global own Hg) as [Hnd [rest [Hk Hrest]]].
  split; [intros k; apply merge_lookup, Ho|].
  split; [exact Hnd|]. split; [exists rest; auto|].
  set (r := merge_aliases global own) in *.
  set (n := List.length global).
  assert (map fst (firstn n r) = map fst global) as Hp.
  { rewrite <- firstn_map, Hk. unfold n. rewrite <- (length_map fst global).
    rewrite firstn_app, Nat.sub_diag, firstn_all. simpl. apply app_nil_r. }
  unfold merge_aliases at 1. rewrite <- (firstn_skipn n r) at 1.
  rewrite fold_left_app, (fold_alias_same_keys _ _ Hp Hg).
  rewrite fold_alias_fresh; rewrite firstn_skipn; auto.
Qed.

End MergeAliases.

(** X9 on the shipped tables of [send_quick_bulk_sms]: the override
    repeats the global alias, and the merged table holds it once. *)
Lemma merge_aliases_spec_witness :
  let global := [("recipients", "recipient")] in
  let own := aliases (@send_quick_bulk_sms_override NoFloat) in
  assoc "recipients" (merge_aliases global own) = Some "recipient"
  /\ merge_aliases global (merge_aliases global own) = merge_aliases global own.
Proof.
  intros global own.
  assert (NoDup (map fst global)) as Hg by (repeat constructor; simpl; tauto).
  assert (NoDup (map fst own)) as Ho by (repeat constructor; simpl; tauto).
  destruct (merge_aliases_spec global own Hg Ho) as [H1 [_ [_ H4]]].
  split; [rewrite H1; reflexivity|exact H4].
Defined.

(* ================================================================== *)
(** * The tools the registry builds *)
(* ================================================================== *)

Section RegistryFacts.

Context {F : PyFloat}.

Lemma shipped_alias_tables (name : string) :
  let table := aliases (override_for default_overrides default_aliases name) in
  NoDup (map fst table) /\ chain_free table /\ table_ok table = true.
Proof.
  unfold override_for, default_overrides, default_aliases, chain_free.
  cbn [assoc aliases].
  destruct (String.eqb name "send_quick_bulk_sms");
    [|destruct (String.eqb name "send_bulk_group_sms");
      [|destruct (String.eqb name "update_scheduled_sms");
        [|destruct (String.eqb name "add_contact");
          [|destruct (String.eqb name "update_contact")]]]];
    (split; [|split; [|reflexivity]]);
    try (repeat constructor; simpl; intuition discriminate);
    intros c Hc Ha; simpl in Hc, Ha;
    repeat (destruct Hc as [<-|Hc]; [intuition discriminate|]); exact Hc.
Qed.

(** X10.  Registration with the shipped tables, which an absent or an
    empty table argument selects.  The tools come from the members in
    their order; each one stems from a member with a public name that
    the module defines itself and that is none of the four helpers, it
    carries the name and the signature of that function, and its
    override is looked up under the name of the member.  The alias
    table of every tool has distinct keys and no chain, and does not
    touch the keys of the normalizer. *)
Theorem shipped_registration (module_name : string) (members : list member) :
  let tools := register_flex_functions module_name members [] [] in
  registered_names tools
  = map member_func_name (filter (is_tool module_name) members)
  /\ List.length tools <= List.length members
  /\ (forall t, In t tools ->
        exists mb, In mb members
                   /\ PyStr.startswith_char "_" (member_name mb) = false
                   /\ member_module mb = module_name
                   /\ ~ In (member_name mb) excluded_names
                   /\ tool_name t = member_func_name mb
                   /\ tool_signature t = member_signature mb
                   /\ tool_override t
                      = override_for default_overrides default_aliases (member_name mb))
  /\ (forall mb, In mb members -> is_tool module_name mb = true ->
        In (member_func_name mb) (registered_names tools))
  /\ (forall t, In t tools ->
        NoDup (map fst (aliases (tool_override t)))
        /\ chain_free (aliases (tool_override t))
        /\ table_ok (aliases (tool_override t)) = true).
Proof.
  intros tools. unfold tools, register_flex_functions, registered_names.
  cbn [table_or].
  assert (forall t,
             In t (map (fun m => {| tool_name := member_func_name m;
                                    tool_override :=
                                      override_for default_overrides default_aliases
                                                   (member_name m);
                                    tool_signature := member_signature m |})
                       (filter (is_tool module_name) members)) ->
             exists mb, In mb members /\ is_tool module_name mb = true
                        /\ t = {| tool_name := member_func_name mb;
                                  tool_override :=
                                    override_for default_overrides default_aliases
                                                 (member_name mb);
                                  tool_signature := member_signature mb |}) as Hinv.
  { intros t Ht. apply in_map_iff in Ht. destruct Ht as [mb [<- Hmb]].
    apply filter_In in Hmb. destruct Hmb. exists mb. auto. }
  split; [|split; [|split; [|split]]].
  - rewrite map_map. reflexivity.
  - rewrite length_map. apply filter_length_le.
  - intros t Ht. destruct (Hinv t Ht) as [mb [Hin [Htool ->]]].
    exists mb. unfold is_tool in Htool.
    apply andb_true_iff in Htool. destruct Htool as [Htool Hex].
    apply andb_true_iff in Htool. destruct Htool as [Hpub Hmod].
    apply negb_true_iff in Hpub, Hex. apply String.eqb_eq in Hmod.
    repeat split; auto.
    intros Hin'. apply str_in_iff in Hin'. congruence.
  - intros mb Hin Htool. rewrite map_map. simpl.
    apply in_map_iff. exists mb. split; [reflexivity|].
    apply filter_In. auto.
  - intros t Ht. destruct (Hinv t Ht) as [mb [_ [_ ->]]].
    apply (shipped_alias_tables (member_name mb)).
Qed.

End RegistryFacts.

(* ================================================================== *)
(** * Lists of plain tokens through [_to_str_list] *)
(* ================================================================== *)

Section PlainTokens.

Import PyStr.

Lemma list_of_append (a b : string) :
  list_ascii_of_string (a ++ b)
  = (list_ascii_of_string a ++ list_ascii_of_string b)%list.
Proof. induction a as [|c a IH]; simpl; [reflexivity|]. rewrite IH. reflexivity. Qed.

Lemma rev_append (a b : string) : rev (a ++ b) = rev b ++ rev a.
Proof.
  unfold rev. rewrite list_of_append, rev_app_distr. apply string_of_list_app.
Qed.

Lemma head_append (q : ascii -> bool) (a b : string) :
  match a with String c _ => q c = true | EmptyString => False end ->
  match a ++ b with String c _ => q c = true | EmptyString => False end.
Proof. destruct a; simpl; [intros []|auto]. Qed.

Lemma strip_by_edges (p : ascii -> bool) (s : string) :
  match s with String c _ => p c = false | EmptyString => True end ->
  match rev s with String c _ => p c = false | EmptyString => True end ->
  strip_by p s = s.
Proof.
  intros H1 H2. unfold strip_by.
  rewrite (drop_while_fixed p s H1), (drop_while_fixed p (rev s) H2).
  apply rev_involutive.
Qed.

Lemma strip_by_pad (p : ascii -> bool) (pad s : string) :
  all_chars p pad = true -> strip_by p (pad ++ s) = strip_by p s.
Proof.
  intros H. unfold strip_by. f_equal. f_equal. f_equal.
  induction pad as [|c pad IH]; simpl; [reflexivity|].
  simpl in H. apply andb_true_iff in H. destruct H as [-> H]. apply IH, H.
Qed.

Lemma plain_token_inv (t : string) :
  plain_token t = true ->
  all_chars (fun c => negb (Ascii.eqb c ",")) t = true
  /\ match t with String c _ => plain_edge c = true | EmptyString => False end
  /\ match rev t with String c _ => plain_edge c = true | EmptyString => False end.
Proof.
  unfold plain_token. intros H.
  apply andb_true_iff in H. destruct H as [H H3].
  apply andb_true_iff in H. destruct H as [H1 H2].
  split; [exact H1|]. split.
  - destruct t; [discriminate|exact H2].
  - destruct (rev t); [discriminate|exact H3].
Qed.

Lemma plain_edge_inv (c : ascii) :
  plain_edge c = true -> is_space c = false /\ is_quote c = false.
Proof.
  unfold plain_edge. intros H. apply andb_true_iff in H.
  destruct H as [H1 H2]. apply negb_true_iff in H1, H2. auto.
Qed.

Lemma plain_token_fixed (t : string) :
  plain_token t = true ->
  strip t = t /\ strip_quotes t = t /\ t <> "".
Proof.
  intros H. destruct (plain_token_inv t H) as [_ [H1 H2]].
  split; [|split].
  - apply strip_by_edges.
    + destruct t; [exact I|]. apply plain_edge_inv in H1. tauto.
    + destruct (rev t); [exact I|]. apply plain_edge_inv in H2. tauto.
  - apply strip_by_edges.
    + destruct t; [exact I|]. apply plain_edge_inv in H1. tauto.
    + destruct (rev t); [exact I|]. apply plain_edge_inv in H2. tauto.
  - destruct t; [contradiction|discriminate].
Qed.

Lemma clean_items_plain (l : list string) :
  forallb plain_token l = true -> clean_items l = l.
Proof.
  unfold clean_items, nonblank.
  induction l as [|t l IH]; simpl; [reflexivity|].
  intros H. apply andb_true_iff in H. destruct H as [Ht Hl].
  destruct (plain_token_fixed t Ht) as [H1 [H2 H3]].
  rewrite H1. apply String.eqb_neq in H3. rewrite H3. simpl.
  rewrite H1, H2, (IH Hl). reflexivity.
Qed.

Lemma split_on_nonnil (sep : ascii) (s : string) : split_on sep s <> [].
Proof.
  induction s as [|c s IH]; simpl; [discriminate|].
  destruct (Ascii.eqb c sep); [discriminate|].
  destruct (split_on sep s); [contradiction|discriminate].
Qed.

Lemma split_on_prefix (pad s : string) :
  all_chars (fun c => negb (Ascii.eqb c ",")) pad = true ->
  split_on "," (pad ++ s)
  = match split_on "," s with
    | p :: ps => (pad ++ p) :: ps
    | [] => [pad]
    end.
Proof.
  induction pad as [|c pad IH]; intros H; simpl.
  - destruct (split_on "," s) eqn:E; [|reflexivity].
    exfalso. apply (split_on_nonnil _ _ E).
  - simpl in H. apply andb_true_iff in H. destruct H as [Hc H].
    apply negb_true_iff in Hc. rewrite Hc, (IH H).
    destruct (split_on "," s); reflexivity.
Qed.

Lemma append_empty (t : string) : t ++ "" = t.
Proof. induction t as [|c t IH]; simpl; congruence. Qed.

Lemma split_on_piece (t s : string) :
  all_chars (fun c => negb (Ascii.eqb c ",")) t = true ->
  split_on "," (t ++ String "," s) = t :: split_on "," s.
Proof.
  intros H. rewrite (split_on_prefix t (String "," s) H).
  cbn [split_on Ascii.eqb Bool.eqb]. rewrite append_empty. reflexivity.
Qed.

Lemma split_on_whole (t : string) :
  all_chars (fun c => negb (Ascii.eqb c ",")) t = true -> split_on "," t = [t].
Proof.
  intros H. pose proof (split_on_prefix t "" H) as E. simpl in E.
  rewrite !append_empty in E. exact E.
Qed.

Lemma space_no_comma (pad : string) :
  all_chars is_space pad = true ->
  all_chars (fun c => negb (Ascii.eqb c ",")) pad = true.
Proof.
  apply all_chars_impl. intros c Hc.
  destruct (Ascii.eqb_spec c ",") as [->|_]; [discriminate|reflexivity].
Qed.

(** The pieces of a joined list of plain tokens. *)
Lemma split_on_join (pad t : string) (l : list string) :
  all_chars is_space pad = true ->
  forallb plain_token (t :: l) = true ->
  split_on "," (join (String "," pad) (t :: l)) = t :: map (append pad) l.
Proof.
  intros Hpad. revert t. induction l as [|t2 l IH]; intros t H.
  - simpl in *. apply andb_true_iff in H. destruct H as [H _].
    apply split_on_whole, (plain_token_inv t H).
  - cbn [forallb] in H. apply andb_true_iff in H. destruct H as [Ht Hl].
    change (join (String "," pad) (t :: t2 :: l))
      with (t ++ String "," (pad ++ join (String "," pad) (t2 :: l))).
    rewrite split_on_piece by apply (plain_token_inv t Ht).
    rewrite (split_on_prefix pad _ (space_no_comma pad Hpad)), (IH t2 Hl).
    reflexivity.
Qed.

Lemma strip_pieces (pad : string) (l : list string) :
  all_chars is_space pad = true -> forallb plain_token l = true ->
  map strip (map (append pad) l) = l.
Proof.
  intros Hpad. induction l as [|t l IH]; simpl; [reflexivity|].
  intros H. apply andb_true_iff in H. destruct H as [Ht Hl].
  unfold strip at 1. rewrite (strip_by_pad _ _ _ Hpad).
  destruct (plain_token_fixed t Ht) as [H1 _]. unfold strip in H1. rewrite H1.
  rewrite (IH Hl). reflexivity.
Qed.

Lemma clean_joined (pad : string) (l : list string) :
  all_chars is_space pad = true -> forallb plain_token l = true ->
  clean_items (map strip (split_on "," (join (String "," pad) l))) = l.
Proof.
  intros Hpad H. destruct l as [|t l]; [reflexivity|].
  rewrite (split_on_join pad t l Hpad H). cbn [map forallb] in *.
  apply andb_true_iff in H. destruct H as [Ht Hl].
  rewrite (strip_pieces pad l Hpad Hl).
  destruct (plain_token_fixed t Ht) as [-> _].
  apply clean_items_plain. simpl. rewrite Ht, Hl. reflexivity.
Qed.

(** A joined list of plain tokens begins and ends as its first and
    last token do. *)
Lemma join_edges (q : ascii -> bool) (sep t : string) (l : list string) :
  (forall t', In t' (t :: l) ->
     match t' with String c _ => q c = true | EmptyString => False end
     /\ match rev t' with String c _ => q c = true | EmptyString => False end) ->
  match join sep (t :: l) with String c _ => q c = true | EmptyString => False end
  /\ match rev (join sep (t :: l)) with
     | String c _ => q c = true
     | EmptyString => False
     end.
Proof.
  revert t. induction l as [|t2 l IH]; intros t H.
  - apply (H t). left; reflexivity.
  - change (join sep (t :: t2 :: l)) with (t ++ sep ++ join sep (t2 :: l)).
    destruct (H t (or_introl eq_refl)) as [H1 _].
    destruct (IH t2 (fun t' Hin => H t' (or_intror Hin))) as [_ H2].
    split; [apply head_append, H1|].
    rewrite !rev_append. apply head_append, head_append, H2.
Qed.

Lemma strip_joined (pad : string) (l : list string) :
  forallb plain_token l = true ->
  strip (join (String "," pad) l) = join (String "," pad) l.
Proof.
  intros H. destruct l as [|t l]; [reflexivity|].
  destruct (join_edges (fun c => negb (is_space c)) (String "," pad) t l) as [H1 H2].
  { intros t' Hin. rewrite forallb_forall in H.
    destruct (plain_token_inv t' (H t' Hin)) as [_ [E1 E2]].
    split.
    - destruct t'; [exact E1|]. apply plain_edge_inv in E1. apply negb_true_iff. tauto.
    - destruct (rev t'); [exact E2|]. apply plain_edge_inv in E2.
      apply negb_true_iff. tauto. }
  apply strip_by_edges.
  - destruct (join _ _); [exact I|]. apply negb_true_iff, H1.
  - destruct (rev (join _ _)); [exact I|]. apply negb_true_iff, H2.
Qed.

Lemma slice_brackets (s : string) : slice_1_m1 (String "[" (s ++ "]")) = s.
Proof.
  unfold slice_1_m1. rewrite list_of_append. simpl.
  rewrite removelast_last. apply string_of_list_ascii_of_string.
Qed.

End PlainTokens.

Section StrListRoundTrip.

Context {F : PyFloat}.

(** X11.  A list of plain tokens (not empty, no comma, neither white
    space nor a quote character at the ends) passes [_to_str_list]
    unchanged, and so does its text: the tokens joined by a comma and
    any run of white space are read back as the list, with enclosing
    brackets and, when the text does not both begin and end with a
    bracket of its own, without them. *)
Theorem str_list_round_trip (pad : string) (l : list string) :
  all_chars PyStr.is_space pad = true ->
  forallb plain_token l = true ->
  let text := PyStr.join (String "," pad) l in
  _to_str_list (str_list l) = l
  /\ _to_str_list (VStr ("[" ++ text ++ "]")) = l
  /\ (PyStr.startswith_char "[" text && PyStr.endswith_char "]" text = false ->
      _to_str_list (VStr text) = l).
Proof.
  intros Hpad Hl text. split; [|split].
  - unfold str_list. cbn [_to_str_list]. rewrite map_map. cbn [py_str].
    rewrite map_id. apply clean_items_plain, Hl.
  - cbn [_to_str_list py_str].
    assert (PyStr.strip ("[" ++ text ++ "]") = "[" ++ text ++ "]") as ->.
    { apply strip_by_edges; [reflexivity|].
      change ("[" ++ text ++ "]") with (String "[" (text ++ String "]" "")).
      rewrite rev_cons, rev_snoc. reflexivity. }
    assert (PyStr.endswith_char "]" ("[" ++ text ++ "]") = true) as Hend.
    { unfold PyStr.endswith_char.
      change ("[" ++ text ++ "]") with (String "[" (text ++ String "]" "")).
      rewrite rev_cons, rev_snoc. reflexivity. }
    rewrite Hend. cbn [PyStr.startswith_char append Ascii.eqb Bool.eqb andb].
    change (String "[" (text ++ "]")) with (String "[" (text ++ "]")).
    rewrite slice_brackets. apply clean_joined; assumption.
  - intros Hb. cbn [_to_str_list py_str].
    unfold text in *. rewrite (strip_joined pad l Hl), Hb.
    apply clean_joined; assumption.
Qed.

End StrListRoundTrip.

(** X11 on the recipients [+233200000000] and [+233500000000]. *)
Lemma str_list_round_trip_witness :
  let l := ["+233200000000"; "+233500000000"] in
  @_to_str_list NoFloat (VStr "[+233200000000, +233500000000]") = l
  /\ @_to_str_list NoFloat (VStr "+233200000000, +233500000000") = l
  /\ @_to_str_list NoFloat (str_list l) = l.
Proof.
  intros l.
  destruct (@str_list_round_trip NoFloat " " l eq_refl eq_refl) as [H1 [H2 H3]].
  split; [exact H2|]. split; [apply H3; reflexivity|exact H1].
Defined.

(* ================================================================== *)
(** * The kind a declared argument is bound at *)
(* ================================================================== *)

Section TypedBinding.

Context {F : PyFloat}.
Implicit Types (ov : FunctionOverride) (sig : signature) (kwargs bound : dict).

Lemma coerce_int_shape (v w : value) :
  _coerce_value "int" v = Ok w -> (exists z, w = VInt z) \/ (exists b, w = VBool b).
Proof.
  change (_coerce_value "int" v) with (_to_int v). unfold _to_int.
  destruct v; simpl;
    try (intros [= <-]; eauto; fail);
    try (destruct (Literal.int_of_str _); simpl; [intros [= <-]; eauto|discriminate]).
  destruct (float_trunc _); simpl; [intros [= <-]; eauto|discriminate].
Qed.

Lemma coerce_float_shape (v w : value) :
  _coerce_value "float" v = Ok w -> exists f, w = VFloat f.
Proof.
  change (_coerce_value "float" v) with (_to_float v). unfold _to_float.
  destruct v; simpl;
    try (intros [= <-]; eauto; fail);
    try (destruct (float_of_str _); simpl; [intros [= <-]; eauto|discriminate]);
    try (destruct (float_of_int _); simpl; [intros [= <-]; eauto|discriminate]).
Qed.

(** X12.  A declared parameter that the caller supplies is bound to
    the coercion of the supplied value at its kind.  The kind is the
    entry of [expected_types] when there is one that is not empty, and
    otherwise follows the annotation: a parameter without annotation,
    annotated [str] or annotated with a type the adapter does not know
    is bound to the string form of the value, whatever the value is; a
    [bool] parameter to a boolean; an [int] parameter to an integer or
    a boolean; a [float] parameter to a float; a list parameter to a
    list of strings. *)
Theorem declared_argument_kind ov sig kwargs bound (p : parameter) :
  NoDup (map param_name sig) ->
  build_binding ov sig kwargs = Ok bound ->
  In p sig -> dict_mem (param_name p) kwargs = true ->
  let supplied := dict_get (param_name p) kwargs in
  let v := dict_get (param_name p) bound in
  dict_mem (param_name p) bound = true
  /\ _coerce_value (resolved_kind ov p) supplied = Ok v
  /\ (forall kind, assoc (param_name p) (expected_types ov) = Some kind -> kind <> "" ->
        resolved_kind ov p = kind)
  /\ (assoc (param_name p) (expected_types ov) = None
      \/ assoc (param_name p) (expected_types ov) = Some "" ->
      match param_annotation p with
      | AnnEmpty | AnnStr | AnnOther => v = VStr (_to_str supplied)
      | AnnBool => v = VBool (_to_bool supplied)
      | AnnInt => (exists z, v = VInt z) \/ (exists b, v = VBool b)
      | AnnFloat => exists f, v = VFloat f
      | AnnList => v = str_list (_to_str_list supplied)
      end).
Proof.
  intros Hnd Hb Hin Hm supplied v.
  destruct (build_binding_inv _ _ _ _ Hb) as [bound1 [Hb1 ->]].
  destruct (bind_params_declared _ _ _ _ _ p Hnd Hb1 Hin Hm) as [w [Hc Hf]].
  assert (dict_find (param_name p) (pass_through kwargs bound1) = Some w) as Hfind
      by (rewrite pass_through_find, Hf; reflexivity).
  assert (v = w) as Hv by (unfold v, dict_get; rewrite Hfind; reflexivity).
  split; [apply dict_mem_find; eauto|].
  split; [rewrite Hv; exact Hc|]. split.
  - intros kind Hk Hne. unfold resolved_kind. rewrite Hk.
    apply String.eqb_neq in Hne. rewrite Hne. reflexivity.
  - intros Hnone.
    assert (resolved_kind ov p = _infer_expected_type p) as Hr
        by (unfold resolved_kind; destruct Hnone as [-> | ->]; reflexivity).
    rewrite Hr in Hc. rewrite Hv. clear -Hc. fold supplied in Hc.
    unfold _infer_expected_type in Hc.
    destruct (param_annotation p);
      try (injection Hc as <-; reflexivity).
    + apply (coerce_int_shape _ _ Hc).
    + apply (coerce_float_shape _ _ Hc).
Qed.

End TypedBinding.

(** X12 on a function [f(count: int, tag)] called with a string and a
    list. *)
Lemma declared_argument_kind_witness :
  let sig := [ {| param_name := "count"; param_annotation := AnnInt;
                  param_has_default := false |};
               {| param_name := "tag"; param_annotation := AnnEmpty;
                  param_has_default := false |} ] in
  let kwargs := [("count", @VStr NoFloat " 7 "); ("tag", VList [VInt 1; VInt 2])] in
  let bound := [("count", @VInt NoFloat 7); ("tag", VStr "[1, 2]")] in
  build_binding empty_override sig kwargs = Ok bound
  /\ dict_get "tag" bound = VStr (_to_str (dict_get "tag" kwargs)).
Proof.
  intros sig kwargs bound.
  assert (build_binding empty_override sig kwargs = Ok bound) as Hb
      by (vm_compute; reflexivity).
  split; [exact Hb|].
  assert (NoDup (map param_name sig)) as Hnd
      by (repeat constructor; simpl; intuition discriminate).
  destruct (declared_argument_kind empty_override sig kwargs bound
              {| param_name := "tag"; param_annotation := AnnEmpty;
                 param_has_default := false |} Hnd Hb)
    as [_ [_ [_ H]]].
  - simpl. auto.
  - reflexivity.
  - apply H. left. reflexivity.
Defined.

(* ================================================================== *)
(** * What reaches [send_quick_bulk_sms] *)
(* ================================================================== *)

Section QuickSmsGuarantee.

Context {F : PyFloat}.
Implicit Types (ov : FunctionOverride) (sig : signature) (raw kwargs bound : dict).

Lemma validate_invokes_rules ov bound bound' :
  validate ov bound = Invokes bound' ->
  bound' = bound /\ missing ov bound = []
  /\ check_lengths bound (max_lengths ov) = None.
Proof.
  unfold validate. destruct (missing ov bound); [|discriminate].
  destruct (check_lengths bound (max_lengths ov)); [discriminate|].
  intros [= <-]. auto.
Qed.

(** A declared name in the binding: the coercion of the supplied value,
    or what the defaults hold. *)
Lemma bound_declared_cases ov sig kwargs bound (n : string) :
  NoDup (map param_name sig) ->
  build_binding ov sig kwargs = Ok bound ->
  In n (map param_name sig) ->
  (exists p w, In p sig /\ param_name p = n
               /\ _coerce_value (resolved_kind ov p) (dict_get n kwargs) = Ok w
               /\ dict_find n bound = Some w)
  \/ dict_find n bound = dict_find n (seed_defaults ov).
Proof.
  intros Hnd Hb Hin.
  destruct (build_binding_inv _ _ _ _ Hb) as [bound1 [Hb1 ->]].
  destruct (dict_mem n kwargs) eqn:Hm.
  - left. apply in_map_iff in Hin. destruct Hin as [p [<- Hp]].
    destruct (bind_params_declared _ _ _ _ _ p Hnd Hb1 Hp Hm) as [w [Hc Hf]].
    exists p, w. repeat split; auto.
    rewrite pass_through_find, Hf. reflexivity.
  - right. rewrite pass_through_find.
    rewrite (bind_params_other _ _ _ _ _ n Hb1) by (intros; exact Hm).
    apply dict_mem_false in Hm. rewrite Hm.
    destruct (dict_find n (seed_defaults ov)); reflexivity.
Qed.

Lemma resolved_kind_entry ov (p : parameter) (kind : string) :
  assoc (param_name p) (expected_types ov) = Some kind -> kind <> "" ->
  resolved_kind ov p = kind.
Proof.
  intros H Hne. unfold resolved_kind. rewrite H.
  apply String.eqb_neq in Hne. rewrite Hne. reflexivity.
Qed.

(** X13.  What the registered tool [send_quick_bulk_sms] hands to the
    domain function, when the function declares the five parameters of
    the override: [recipient] is a list of strings that is not empty,
    [sender_id] and [message] are strings that are not empty, the
    message has at most 460 characters, [schedule] is a boolean, and
    when it is true [schedule_time] is a string that is not empty.  No
    other call reaches the function. *)
Theorem quick_sms_call_guarantee sig raw bound :
  NoDup (map param_name sig) ->
  incl ["recipient"; "sender_id"; "message"; "schedule"; "schedule_time"]
       (map param_name sig) ->
  wrapper_outcome (override_for default_overrides default_aliases "send_quick_bulk_sms")
                  sig raw = Invokes bound ->
  (exists l, dict_find "recipient" bound = Some (str_list l) /\ l <> [])
  /\ (exists s, dict_find "sender_id" bound = Some (VStr s) /\ s <> "")
  /\ (exists s, dict_find "message" bound = Some (VStr s) /\ s <> ""
                /\ String.length s <= 460)
  /\ (exists b, dict_find "schedule" bound = Some (VBool b)
                /\ (b = true ->
                    exists t, dict_find "schedule_time" bound = Some (VStr t) /\ t <> "")).
Proof.
  intros Hnd Hincl Hw.
  set (ov := override_for default_overrides default_aliases "send_quick_bulk_sms") in *.
  pose proof (wrapper_outcome_Invokes _ _ _ _ Hw) as Hb.
  rewrite (wrapper_outcome_bound _ _ _ _ Hb) in Hw.
  destruct (validate_invokes_rules _ _ _ Hw) as [_ [Hmiss Hlen]].
  apply missing_nil_iff in Hmiss. destruct Hmiss as [Hreq Hif].
  pose proof (proj1 (check_lengths_None _ _) Hlen) as Hmax.
  assert (forall n kind,
             In n ["recipient"; "sender_id"; "message"; "schedule"; "schedule_time"] ->
             assoc n (expected_types ov) = Some kind -> kind <> "" ->
             (exists v w, _coerce_value kind v = Ok w /\ dict_find n bound = Some w)
             \/ dict_find n bound = dict_find n (seed_defaults ov)) as Hcase.
  { intros n kind Hn Hk Hne.
    destruct (bound_declared_cases ov sig _ bound n Hnd Hb (Hincl n Hn))
      as [[p [w [Hp [Hname [Hc Hf]]]]]|Hd]; [left|right; exact Hd].
    rewrite (resolved_kind_entry ov p kind) in Hc by (try rewrite Hname; assumption).
    eauto. }
  assert (forall n, In n (required ov) -> dict_find n (seed_defaults ov) = None ->
                    dict_find n bound <> dict_find n (seed_defaults ov)) as Hneed.
  { intros n Hn Hnone Heq. specialize (Hreq n Hn).
    unfold dict_get in Hreq. rewrite Heq, Hnone in Hreq. discriminate. }
  split; [|split; [|split]].
  - destruct (Hcase "recipient" "list[str]") as [[v [w [Hc Hf]]]|Hd];
      [simpl; auto|reflexivity|discriminate| |].
    + injection Hc as <-. exists (_to_str_list v). split; [exact Hf|].
      intros Hnil. specialize (Hreq "recipient" (or_introl eq_refl)).
      unfold dict_get in Hreq. rewrite Hf, Hnil in Hreq. discriminate.
    + exfalso. apply (Hneed "recipient"); [simpl; auto|reflexivity|exact Hd].
  - destruct (Hcase "sender_id" "str") as [[v [w [Hc Hf]]]|Hd];
      [simpl; auto|reflexivity|discriminate| |].
    + injection Hc as <-. exists (_to_str v). split; [exact Hf|].
      intros Hnil. specialize (Hreq "sender_id" (or_intror (or_introl eq_refl))).
      unfold dict_get in Hreq. rewrite Hf, Hnil in Hreq. discriminate.
    + exfalso. apply (Hneed "sender_id"); [simpl; auto|reflexivity|exact Hd].
  - destruct (Hcase "message" "str") as [[v [w [Hc Hf]]]|Hd];
      [simpl; auto|reflexivity|discriminate| |].
    + injection Hc as <-. exists (_to_str v). split; [exact Hf|]. split.
      * intros Hnil.
        specialize (Hreq "message" (or_intror (or_intror (or_introl eq_refl)))).
        unfold dict_get in Hreq. rewrite Hf, Hnil in Hreq. discriminate.
      * specialize (Hmax "message" 460%Z (_to_str v) (or_introl eq_refl) Hf). lia.
    + exfalso. apply (Hneed "message"); [simpl; auto|reflexivity|exact Hd].
  - assert (exists b, dict_find "schedule" bound = Some (VBool b)) as [b Hs].
    { destruct (Hcase "schedule" "bool") as [[v [w [Hc Hf]]]|Hd];
        [simpl; auto 6|reflexivity|discriminate| |].
      - injection Hc as <-. eauto.
      - exists false. exact Hd. }
    exists b. split; [exact Hs|]. intros ->.
    assert (is_blank (dict_get "schedule_time" bound) = false) as Hst.
    { apply (Hif schedule_rule (or_introl eq_refl)).
      unfold rule_meets, dict_get. simpl. rewrite Hs. reflexivity. }
    destruct (Hcase "schedule_time" "str") as [[v [w [Hc Hf]]]|Hd];
      [simpl; auto 7|reflexivity|discriminate| |].
    + injection Hc as <-. exists (_to_str v). split; [exact Hf|].
      intros Hnil. unfold dict_get in Hst. rewrite Hf, Hnil in Hst. discriminate.
    + exfalso. unfold dict_get in Hst. rewrite Hd in Hst. discriminate.
Qed.

End QuickSmsGuarantee.

(** X13 on a call that spells the recipients as a string and the
    schedule flag as a word. *)
Lemma quick_sms_call_guarantee_witness :
  let ov := @override_for NoFloat default_overrides default_aliases "send_quick_bulk_sms" in
  let raw := [("recipients", @VStr NoFloat "+233200000000, +233500000000");
              ("sender_id", VStr "ACME"); ("message", VStr "Hello");
              ("schedule", VStr "no")] in
  exists bound,
    wrapper_outcome ov send_quick_bulk_sms_signature raw = Invokes bound
    /\ dict_find "recipient" bound
       = Some (str_list ["+233200000000"; "+233500000000"])
    /\ dict_find "schedule" bound = Some (VBool false).
Proof.
  intros ov raw.
  assert (exists bound,
             wrapper_outcome ov send_quick_bulk_sms_signature raw = Invokes bound)
    as [bound Hw] by (eexists; vm_compute; reflexivity).
  exists bound. split; [exact Hw|].
  assert (NoDup (map param_name send_quick_bulk_sms_signature)) as Hnd
      by (repeat constructor; simpl; intuition discriminate).
  destruct (quick_sms_call_guarantee send_quick_bulk_sms_signature raw bound Hnd)
    as [[l [Hl _]] [_ [_ [b [Hs _]]]]].
  - intros n Hn. exact Hn.
  - exact Hw.
  - vm_compute in Hw. injection Hw as <-. split; reflexivity.
Defined.

(* ================================================================== *)
(** * The name expansion loses no word *)
(* ================================================================== *)

Section WordsOfAName.

Import PyStr.








End WordsOfAName.

Section NameLossless.

Context {F : PyFloat}.
Implicit Types (m : dict).




End NameLossless.

(* ================================================================== *)
(** * Several spellings of one key *)
(* ================================================================== *)

Section LaterSpelling.

Context {F : PyFloat}.
Implicit Types (m kwargs acc : dict).

Lemma dict_set_keys (k : string) (v : value) (d : dict) :
  (In k (map fst d) /\ map fst (dict_set k v d) = map fst d)
  \/ (~ In k (map fst d) /\ map fst (dict_set k v d) = (map fst d ++ [k])%list).
Proof.
  induction d as [|[k0 v0] d IH]; simpl; [right; tauto|].
  destruct (String.eqb_spec k k0) as [->|Hne]; simpl; [left; tauto|].
  destruct IH as [[H1 H2]|[H1 H2]]; rewrite H2; [left|right]; split; auto.
  intros [E|E]; [congruence|tauto].
Qed.

Lemma dict_set_NoDup (k : string) (v : value) (d : dict) :
  NoDup (map fst d) -> NoDup (map fst (dict_set k v d)).
Proof.
  intros Hnd. destruct (dict_set_keys k v d) as [[_ ->]|[Hno ->]]; [exact Hnd|].
  apply NoDup_app; [exact Hnd|repeat constructor; simpl; tauto|].
  intros x Hx [<-|[]]. contradiction.
Qed.

Lemma rewrite_fold_NoDup kwargs (l : list (string * value)) acc :
  NoDup (map fst acc) -> NoDup (map fst (fold_left (rewrite_step kwargs) l acc)).
Proof.
  revert acc. induction l as [|[key v] l IH]; intros acc Hnd; [exact Hnd|].
  simpl. apply IH. unfold rewrite_step. simpl.
  destruct (negb (dict_mem (canonical_key key) kwargs)); [apply dict_set_NoDup|]; exact Hnd.
Qed.

Lemma rewrite_fold_find kwargs (l : list (string * value)) acc (k : string) :
  dict_find k (fold_left (rewrite_step kwargs) l acc)
  = match last_spelling k l with
    | Some v => if dict_mem k kwargs then dict_find k acc else Some v
    | None => dict_find k acc
    end.
Proof.
  revert acc. induction l as [|[key v] l IH]; intros acc; [reflexivity|].
  cbn [fold_left last_spelling]. rewrite IH.
  assert (dict_find k (rewrite_step kwargs acc (key, v))
          = if String.eqb (canonical_key key) k && negb (dict_mem k kwargs)
            then Some v else dict_find k acc) as Hstep.
  { unfold rewrite_step. cbn [fst snd].
    destruct (String.eqb_spec (canonical_key key) k) as [->|Hne]; cbn [andb].
    - destruct (dict_mem k kwargs); cbn [negb]; [reflexivity|apply dict_find_set_eq].
    - destruct (negb (dict_mem (canonical_key key) kwargs)); [|reflexivity].
      apply dict_find_set_neq. congruence. }
  rewrite Hstep.
  destruct (last_spelling k l) as [w|].
  - destruct (dict_mem k kwargs); [|reflexivity].
    rewrite andb_false_r. reflexivity.
  - destruct (String.eqb (canonical_key key) k); cbn [andb]; [|reflexivity].
    destruct (dict_mem k kwargs); reflexivity.
Qed.

Lemma dict_update_find (d e : dict) (k : string) :
  NoDup (map fst e) ->
  dict_find k (dict_update d e)
  = match dict_find k e with
    | Some v => Some v
    | None => dict_find k d
    end.
Proof.
  intros Hnd. destruct (dict_find k e) as [v|] eqn:E.
  - apply (fold_set_In k v e d Hnd), dict_find_In, E.
  - apply dict_update_find_old. intros Hin.
    apply dict_mem_keys in Hin. apply dict_mem_false in E. congruence.
Qed.

Lemma last_spelling_Some m (k : string) (v : value) :
  last_spelling k m = Some v <->
  exists pre key post,
    m = (pre ++ (key, v) :: post)%list /\ canonical_key key = k
    /\ forall key' v', In (key', v') post -> canonical_key key' <> k.
Proof.
  revert v. induction m as [|[key0 v0] m IH]; intros v.
  - simpl. split; [discriminate|]. intros [pre [key [post [H _]]]].
    destruct pre; discriminate.
  - cbn [last_spelling]. destruct (last_spelling k m) as [w|] eqn:E.
    + split.
      * intros [= <-]. destruct (proj1 (IH w) eq_refl) as [pre [key [post [-> [Hc Hp]]]]].
        exists ((key0, v0) :: pre), key, post. auto.
      * intros [pre [key [post [Hm [Hc Hp]]]]].
        destruct pre as [|x pre]; simpl in Hm; injection Hm as Hx Hm.
        -- exfalso. destruct (proj1 (IH w) eq_refl) as [pre' [key' [post' [Hm' [Hc' _]]]]].
           subst post. apply (Hp key' w); [|exact Hc'].
           rewrite Hm'. apply in_or_app. right. left. reflexivity.
        -- apply (proj2 (IH v)). exists pre, key, post. auto.
    + split.
      * destruct (String.eqb_spec (canonical_key key0) k) as [Hc|_]; [|discriminate].
        intros [= <-]. exists [], key0, m. repeat split; auto.
        intros key' v' Hin Hc'.
        destruct (in_split _ _ Hin) as [l1 [l2 Hm]].
        assert (exists w, last_spelling k m = Some w) as [w Hw]; [|congruence].
        clear -Hm Hc'. subst m. induction l1 as [|[a b] l1 IHl]; simpl.
        -- destruct (last_spelling k l2); [eauto|].
           apply String.eqb_eq in Hc'. rewrite Hc'. eauto.
        -- destruct IHl as [w ->]. eauto.
      * intros [pre [key [post [Hm [Hc Hp]]]]].
        destruct pre as [|x pre]; simpl in Hm.
        -- injection Hm as -> -> _. apply String.eqb_eq in Hc. rewrite Hc. reflexivity.
        -- injection Hm as _ Hm. exfalso.
           assert (None = Some v) as Hv
               by (apply (proj2 (IH v)); exists pre, key, post; auto).
           discriminate.
Qed.

(** X15.  Several spellings of one key.  A key the caller gives keeps
    its value through the normalizer, whatever variants of it are given
    beside it.  A key the caller does not give takes the value of the
    last entry of the arguments, in their order, whose key is a
    spelling of it; without such an entry the rewrite step does not
    add it. *)
Theorem later_spelling_wins m (k : string) :
  (dict_mem k m = true -> dict_find k (normalize m) = dict_find k m)
  /\ (dict_mem k m = false -> dict_find k (rewrite_keys m) = last_spelling k m)
  /\ (dict_mem k m = false -> k <> "phone" -> k <> "first_name" -> k <> "last_name" ->
      dict_find k (normalize m) = last_spelling k m)
  /\ (forall v, last_spelling k m = Some v <->
        exists pre key post,
          m = (pre ++ (key, v) :: post)%list /\ canonical_key key = k
          /\ forall key' v', In (key', v') post -> canonical_key key' <> k).
Proof.
  assert (dict_mem k m = false -> dict_find k (rewrite_keys m) = last_spelling k m) as Hr.
  { intros Hk. unfold rewrite_keys. rewrite dict_update_find.
    - rewrite collect_rewrites_fold, rewrite_fold_find, Hk.
      apply dict_mem_false in Hk. rewrite Hk.
      destruct (last_spelling k m); reflexivity.
    - rewrite collect_rewrites_fold. apply rewrite_fold_NoDup. constructor. }
  split; [apply normalize_find_old|]. split; [exact Hr|].
  split; [|apply last_spelling_Some].
  intros Hk Hp Hf Hl. unfold normalize.
  rewrite fold_contacts_find_other, expand_name_find_other by assumption.
  apply Hr, Hk.
Qed.

End LaterSpelling.

(* ================================================================== *)
(** * The rewrites copy, the resolver moves *)
(* ================================================================== *)

Section CopyNotMove.

Context {F : PyFloat}.
Variable func : dict -> result value.
Implicit Types (ov : FunctionOverride) (sig : signature) (raw m bound : dict).




End CopyNotMove.


